(** * VpaidNonLinear: a sample non-linear VPAID ad

    Shallow embedding of the two variants of the [VpaidNonLinear] object:
    - [Module Vpaid]   : src/vpaid/VpaidNonLinear.js
    - [Module Part000] : src/unnamed/part_000

    The ad object is a record; each JavaScript method is a computation in a
    small state/exception/trace monad.  Whatever the method does to the
    outside world (console, DOM, timers, host callbacks) is recorded, in
    program order, in the trace of the call. *)

From Stdlib Require Import ZArith List String Floats.
From stdpp Require Import base gmap strings list.
Import ListNotations.
Local Open Scope Z_scope.
Local Open Scope string_scope.

(** ** JavaScript values handed over by the host player *)

(** Numbers are modelled by integers; [VObj] and [VFun] are opaque host
    objects and host functions, identified by a handle. *)
Inductive value : Type :=
| VUndefined
| VNull
| VBool (b : bool)
| VNum (n : Z)
| VStr (s : string)
| VObj (handle : nat)
| VFun (handle : nat).

(** The result of [aCallback.bind(aContext)]: calling it calls the host
    function [target] with [this] set to [boundThis]. *)
Record BoundFn : Type := mkBound { target : nat; boundThis : value }.

(** Children of the slot element. *)
Inductive Node : Type :=
| Img (src : string) (classList : list string)
| HostNode (handle : nat).

(** The slot is a DOM element owned by the page; the ad only looks at its
    children. *)
Record Slot : Type := mkSlot { childNodes : list Node }.

(** The video element; [canPlayType] answers [""], ["maybe"] or
    ["probably"]. *)
Record VideoSlot : Type := mkVideoSlot { canPlayType : string -> string }.

(** One entry of the [videos] array of the ad parameters. *)
Record Video : Type := mkVideo { url : string; mimetype : string }.

(** ** Exceptions and observable effects *)

Inductive Exn : Type := TypeError | ReferenceError | SyntaxError.

Inductive outcome (A : Type) : Type :=
| Normal (a : A)
| Throws (e : Exn).
Arguments Normal {A} a.
Arguments Throws {A} e.

(** [ConsoleLog parts] is [console.log] of the concatenation of [parts].
    [Emit] is a ghost event marking an entry into [callEvent_]; [CallBound]
    is the call of a registered callback.  [SetTimeout delay arg] schedules
    [callEvent_.bind(this)] with the array [arg] as only argument. *)
Inductive Effect : Type :=
| ConsoleLog (parts : list value)
| Emit (eventType : string)
| CallBound (f : BoundFn) (args : list value)
| SetTimeout (delay : Z) (arg : list string)
| HeadAppendStyle (viaStyleSheet : bool) (css : string)
| SlotAppendChild (n : Node)
| SlotRemoveChild (n : Node)
| NodeAddEventListener (n : Node) (type : string)
| VideoSetAttribute (name : string) (v : value)
| VideoAddEventListener (type : string)
| VideoPlay
| VideoPause
| RequestFullscreen.

(** ** The monad of method bodies

    A method runs on the object, may update it, produces a trace, and either
    returns or throws.  Updates made before a throw persist. *)
Definition M (S A : Type) : Type := S -> outcome A * S * list Effect.

Definition ret {S A} (a : A) : M S A := fun s => (Normal a, s, []).

Definition bind {S A B} (m : M S A) (k : A -> M S B) : M S B :=
  fun s =>
    match m s with
    | (Normal a, s', t) => let '(r, s'', t') := k a s' in (r, s'', (t ++ t')%list)
    | (Throws e, s', t) => (Throws e, s', t)
    end.

Definition throw {S A} (e : Exn) : M S A := fun s => (Throws e, s, []).
Definition gets {S A} (f : S -> A) : M S A := fun s => (Normal (f s), s, []).
Definition modify {S} (f : S -> S) : M S unit := fun s => (Normal tt, f s, []).
Definition perform {S} (e : Effect) : M S unit := fun s => (Normal tt, s, [e]).

Declare Scope js_scope.
Delimit Scope js_scope with js.
Notation "x <- m ;; k" := (bind m (fun x => k))
  (at level 100, m at next level, right associativity) : js_scope.
Notation "m ;; k" := (bind m (fun _ => k))
  (at level 100, right associativity) : js_scope.

(** Projections of a run. *)
Definition result_of {S A} (r : outcome A * S * list Effect) : outcome A := r.1.1.
Definition state_of {S A} (r : outcome A * S * list Effect) : S := r.1.2.
Definition trace_of {S A} (r : outcome A * S * list Effect) : list Effect := r.2.

(** Which events a trace emits, and which callbacks it calls. *)
Definition emitted (t : list Effect) : list string :=
  omap (fun e => match e with Emit n => Some n | _ => None end) t.
Definition called (t : list Effect) : list BoundFn :=
  omap (fun e => match e with CallBound f _ => Some f | _ => None end) t.

(** [keeps I T m]: from a state satisfying [I], the run of [m] ends in a
    state satisfying [I], whether it returns or throws, and every effect of
    its trace satisfies [T]. *)
Definition keeps {S A} (I : S -> Prop) (T : Effect -> Prop) (m : M S A) : Prop :=
  forall s, I s -> I (state_of (m s)) /\ Forall T (trace_of (m s)).

(** ** The attribute bag *)

Record Attributes : Type := mkAttributes {
  companions : string;
  desiredBitrate : value;
  duration : Z;
  expanded : bool;
  height : value;
  icons : string;
  linear : bool;
  skippableState : bool;
  viewMode : value;
  width : value;
  volume : value
}.

Definition set_width (v : value) (a : Attributes) : Attributes :=
  mkAttributes (companions a) (desiredBitrate a) (duration a) (expanded a)
    (height a) (icons a) (linear a) (skippableState a) (viewMode a) v (volume a).
Definition set_height (v : value) (a : Attributes) : Attributes :=
  mkAttributes (companions a) (desiredBitrate a) (duration a) (expanded a)
    v (icons a) (linear a) (skippableState a) (viewMode a) (width a) (volume a).
Definition set_viewMode (v : value) (a : Attributes) : Attributes :=
  mkAttributes (companions a) (desiredBitrate a) (duration a) (expanded a)
    (height a) (icons a) (linear a) (skippableState a) v (width a) (volume a).
Definition set_desiredBitrate (v : value) (a : Attributes) : Attributes :=
  mkAttributes (companions a) v (duration a) (expanded a)
    (height a) (icons a) (linear a) (skippableState a) (viewMode a) (width a) (volume a).
Definition set_duration (d : Z) (a : Attributes) : Attributes :=
  mkAttributes (companions a) (desiredBitrate a) d (expanded a)
    (height a) (icons a) (linear a) (skippableState a) (viewMode a) (width a) (volume a).
Definition set_expanded (b : bool) (a : Attributes) : Attributes :=
  mkAttributes (companions a) (desiredBitrate a) (duration a) b
    (height a) (icons a) (linear a) (skippableState a) (viewMode a) (width a) (volume a).
Definition set_linear (b : bool) (a : Attributes) : Attributes :=
  mkAttributes (companions a) (desiredBitrate a) (duration a) (expanded a)
    (height a) (icons a) b (skippableState a) (viewMode a) (width a) (volume a).
Definition set_volume (v : value) (a : Attributes) : Attributes :=
  mkAttributes (companions a) (desiredBitrate a) (duration a) (expanded a)
    (height a) (icons a) (linear a) (skippableState a) (viewMode a) (width a) v.

(** ** The object

    Both variants have [slot_], [videoSlot_], [eventsCallbacks_],
    [attributes_] and [startTime_]; the fields that differ are collected in
    [rest_].  [None] in [slot_] or [videoSlot_] is [null] (or [undefined]);
    in [eventsCallbacks_] an absent key is a property that was never set and
    [Some None] is a property holding [null]. *)
Record Ad (X : Type) : Type := mkAd {
  slot_ : option Slot;
  videoSlot_ : option VideoSlot;
  eventsCallbacks_ : gmap string (option BoundFn);
  attributes_ : Attributes;
  startTime_ : Z;
  rest_ : X
}.
Arguments mkAd {X}.
Arguments slot_ {X}.
Arguments videoSlot_ {X}.
Arguments eventsCallbacks_ {X}.
Arguments attributes_ {X}.
Arguments startTime_ {X}.
Arguments rest_ {X}.

(** Used to state what a session keeps: [skippableState] is false, and an
    effect is not an emission of [AdSkipped]. *)
Definition not_skippable {X} (ad : Ad X) : Prop :=
  skippableState (attributes_ ad) = false.
Definition not_AdSkipped (e : Effect) : Prop := e <> Emit "AdSkipped".

Section Shared.
Context {X : Type}.
Local Abbreviation Obj := (Ad X).

Definition with_slot (s : option Slot) (ad : Obj) : Obj :=
  mkAd s (videoSlot_ ad) (eventsCallbacks_ ad) (attributes_ ad) (startTime_ ad) (rest_ ad).
Definition with_videoSlot (v : option VideoSlot) (ad : Obj) : Obj :=
  mkAd (slot_ ad) v (eventsCallbacks_ ad) (attributes_ ad) (startTime_ ad) (rest_ ad).
Definition with_eventsCallbacks
    (f : gmap string (option BoundFn) -> gmap string (option BoundFn)) (ad : Obj) : Obj :=
  mkAd (slot_ ad) (videoSlot_ ad) (f (eventsCallbacks_ ad)) (attributes_ ad) (startTime_ ad) (rest_ ad).
Definition with_attributes (f : Attributes -> Attributes) (ad : Obj) : Obj :=
  mkAd (slot_ ad) (videoSlot_ ad) (eventsCallbacks_ ad) (f (attributes_ ad)) (startTime_ ad) (rest_ ad).
Definition with_startTime (t : Z) (ad : Obj) : Obj :=
  mkAd (slot_ ad) (videoSlot_ ad) (eventsCallbacks_ ad) (attributes_ ad) t (rest_ ad).
Definition with_rest (f : X -> X) (ad : Obj) : Obj :=
  mkAd (slot_ ad) (videoSlot_ ad) (eventsCallbacks_ ad) (attributes_ ad) (startTime_ ad) (f (rest_ ad)).

Local Open Scope js_scope.

(** [this.slot_] and [this.videoSlot_] used as the receiver of a property
    access or of a method call: a TypeError when [null] or [undefined]. *)
Definition the_slot : M Obj Slot :=
  s <- gets slot_ ;;
  match s with Some s => ret s | None => throw TypeError end.
Definition the_videoSlot : M Obj VideoSlot :=
  v <- gets videoSlot_ ;;
  match v with Some v => ret v | None => throw TypeError end.

(** [this.slot_.appendChild(n)] *)
Definition slot_appendChild (n : Node) : M Obj unit :=
  s <- the_slot ;;
  perform (SlotAppendChild n) ;;
  modify (with_slot (Some (mkSlot (childNodes s ++ [n])))).

(** [while (this.slot_.firstChild) this.slot_.removeChild(this.slot_.firstChild);]
    unrolled over the children the slot has when the loop is entered. *)
Fixpoint removeChildren (children : list Node) : M Obj unit :=
  match children with
  | [] => ret tt
  | c :: rest =>
      perform (SlotRemoveChild c) ;;
      modify (with_slot (Some (mkSlot rest))) ;;
      removeChildren rest
  end.
Definition slot_clear : M Obj unit :=
  s <- the_slot ;;
  removeChildren (childNodes s).

(** [console.log(message)]; the message is kept as the list of the values
    concatenated to build it. *)
Definition log (message : list value) : M Obj unit :=
  perform (ConsoleLog message).

(** [if (eventType in this.eventsCallbacks_) this.eventsCallbacks_[eventType]();]
    A property holding [null] is [in] the object, and calling [null]
    throws a TypeError.  [in] is read as the lookup of an own key: this is
    what the code does at the event names it emits ([event_names] below) as
    long as nothing is registered under ['__proto__']; the properties that
    [{}] inherits ([toString], [__proto__], ...) are not modelled. *)
Definition callEvent_ (eventType : string) : M Obj unit :=
  perform (Emit eventType) ;;
  cbs <- gets eventsCallbacks_ ;;
  match cbs !! eventType with
  | None => ret tt
  | Some (Some f) => perform (CallBound f [])
  | Some None => throw TypeError
  end.

Definition handshakeVersion (version : value) : M Obj value :=
  ret (VStr "2.0").

(** [setTimeout(callback, 75, ['AdStopped'])] with
    [callback = this.callEvent_.bind(this)]. *)
Definition stopAd : M Obj unit :=
  log [VStr "Stopping ad"] ;;
  perform (SetTimeout 75 ["AdStopped"]).

(** What the timer set by [stopAd] runs when it expires: [callEvent_] with
    the array as [eventType].  Used as a property key, an array is converted
    to the string joining its elements with commas. *)
Definition array_toString (a : list string) : string := String.concat "," a.
Definition timeout_expired (arg : list string) : M Obj unit :=
  callEvent_ (array_toString arg).

Definition setAdVolume (val : value) : M Obj unit :=
  modify (with_attributes (set_volume val)) ;;
  log [VStr "setAdVolume "; val] ;;
  callEvent_ "AdVolumeChange".

Definition getAdVolume : M Obj value :=
  log [VStr "getAdVolume"] ;;
  gets (fun ad => volume (attributes_ ad)).

Definition pauseAd : M Obj unit :=
  log [VStr "pauseAd"] ;;
  _ <- the_videoSlot ;;
  perform VideoPause ;;
  callEvent_ "AdPaused".

Definition getAdExpanded : M Obj bool :=
  log [VStr "getAdExpanded"] ;;
  gets (fun ad => expanded (attributes_ ad)).

Definition getAdSkippableState : M Obj bool :=
  log [VStr "getAdSkippableState"] ;;
  gets (fun ad => skippableState (attributes_ ad)).

Definition collapseAd : M Obj unit :=
  log [VStr "collapseAd"] ;;
  modify (with_attributes (set_expanded false)).

Definition skipAd : M Obj unit :=
  log [VStr "skipAd"] ;;
  skippable <- gets (fun ad => skippableState (attributes_ ad)) ;;
  if skippable : bool then callEvent_ "AdSkipped" else ret tt.

(** [this.eventsCallbacks_[eventName] = aCallback.bind(aContext);]
    Only a function has [bind]. *)
Definition bind_and_store (aCallback : value) (eventName : string) (aContext : value)
    : M Obj unit :=
  match aCallback with
  | VFun f => modify (with_eventsCallbacks (<[eventName := Some (mkBound f aContext)]>))
  | _ => throw TypeError
  end.

(** [this.eventsCallbacks_[eventName] = null;] *)
Definition unsubscribe (eventName : string) : M Obj unit :=
  log [VStr "unsubscribe "; VStr eventName] ;;
  modify (with_eventsCallbacks (<[eventName := None]>)).

Definition getAdWidth : M Obj value := gets (fun ad => width (attributes_ ad)).
Definition getAdHeight : M Obj value := gets (fun ad => height (attributes_ ad)).

(** The JavaScript number for the integer [z]: the binary64 value nearest
    to [z], which is [z] itself below 2^53 (durations, and clock readings in
    milliseconds, are such integers). *)
Definition number (z : Z) : float :=
  SF2Prim (binary_normalize prec emax z 0 false).

(** [this.attributes_.duration - (currentTime - this.startTime_) / 1000.0],
    with the clock reading [currentTime] of [date.getTime()] supplied by the
    caller; the subtractions and the division are those of binary64. *)
Definition getAdRemainingTime (currentTime : Z) : M Obj float :=
  gets (fun ad =>
    (number (duration (attributes_ ad))
       - (number currentTime - number (startTime_ ad)) / 1000)%float).

Definition getAdDuration : M Obj Z := gets (fun ad => duration (attributes_ ad)).
Definition getAdCompanions : M Obj string := gets (fun ad => companions (attributes_ ad)).
Definition getAdIcons : M Obj string := gets (fun ad => icons (attributes_ ad)).
Definition getAdLinear : M Obj bool := gets (fun ad => linear (attributes_ ad)).

(** A session with the ad: the player and the page make their calls one
    after the other, each running to its end before the next.  A call that
    throws leaves the object as it was at the throw, and the next call goes
    on from there.  The result is the final object and the whole trace. *)
Fixpoint run_calls {C : Type} (perform_call : C -> M Obj unit) (calls : list C)
    (ad : Obj) : Obj * list Effect :=
  match calls with
  | [] => (ad, [])
  | c :: later =>
      let r := perform_call c ad in
      let r' := run_calls perform_call later (state_of r) in
      (r'.1, (trace_of r ++ r'.2)%list)
  end.

End Shared.

(** ** Arguments of [initAd] *)

Record EnvironmentVars : Type := mkEnv { slot : option Slot; videoSlot : option VideoSlot }.

(** What [JSON.parse] returns on a well-formed text: [ParsedNull] for the
    text [null], [ParsedObject] for any other text, with the [overlays] and
    [videos] properties of the parsed value ([None] when missing). *)
Inductive Parsed : Type :=
| ParsedNull
| ParsedObject (overlays : option (list string)) (videos : option (list Video)).

(** The text under [creativeData['AdParameters']] is represented by what
    [JSON.parse] makes of it; [Malformed] is a text it rejects with a
    SyntaxError (a missing [AdParameters] property is one). *)
Inductive Json : Type :=
| Malformed
| WellFormed (data : Parsed).

(** [NoCreativeData] is a [creativeData] that is [null] or [undefined]. *)
Inductive CreativeData : Type :=
| NoCreativeData
| AdParameters (text : Json).

(** [x || []] *)
Definition or_empty {A} (x : option (list A)) : list A := default [] x.

(** [a[i] || ''] *)
Definition or_blank (a : list string) (i : nat) : string := nth i a "".

(** ** src/vpaid/VpaidNonLinear.js *)
Module Vpaid.
Local Open Scope js_scope.

Record Fields : Type := mkFields {
  imageUrls_ : list string;
  videos_ : list Video
}.

Abbreviation Obj := (Ad Fields).

(** [new VpaidNonLinear()]; [videoSlot_] is not set by the constructor. *)
Definition VpaidNonLinear : Obj :=
  mkAd None None ∅
    (mkAttributes "" (VNum 256) 10 false (VNum 0) "" false false
       (VStr "normal") (VNum 0) (VNum 50))
    0
    (mkFields [] []).

Definition getVPAIDAd : Obj := VpaidNonLinear.

Definition IMG_CSS : string :=
".animatedImg {
-webkit-animation-duration: 4s;
-webkit-animation-name: slidein;
position: absolute;
bottom: 5px;
left: 25%;
}
@-webkit-keyframes slidein {
from {
bottom: 200px;
left: 0%;
}
to {
bottom: 5px;
left: 25%;
}
}".

Definition initAd (width height viewMode desiredBitrate : value)
    (creativeData : CreativeData) (environmentVars : option EnvironmentVars)
    : M Obj unit :=
  modify (with_attributes (set_width width)) ;;
  modify (with_attributes (set_height height)) ;;
  modify (with_attributes (set_viewMode viewMode)) ;;
  modify (with_attributes (set_desiredBitrate desiredBitrate)) ;;
  env <- match environmentVars with
         | Some env => ret env
         | None => throw TypeError
         end ;;
  modify (with_slot (slot env)) ;;
  modify (with_videoSlot (videoSlot env)) ;;
  data <- match creativeData with
          | NoCreativeData => throw TypeError
          | AdParameters Malformed => throw SyntaxError
          | AdParameters (WellFormed ParsedNull) => throw TypeError
          | AdParameters (WellFormed (ParsedObject overlays videos)) =>
              ret (overlays, videos)
          end ;;
  modify (with_rest (fun r => mkFields (or_empty data.1) (videos_ r))) ;;
  modify (with_rest (fun r => mkFields (imageUrls_ r) (or_empty data.2))) ;;
  log [VStr "initAd "; width; VStr "x"; height; VStr " "; viewMode; VStr " ";
       desiredBitrate] ;;
  callEvent_ "AdLoaded".

Definition updateVideoPlayerSize_ : M Obj unit :=
  _ <- the_videoSlot ;;
  w <- gets (fun ad => width (attributes_ ad)) ;;
  perform (VideoSetAttribute "width" w) ;;
  _ <- the_videoSlot ;;
  h <- gets (fun ad => height (attributes_ ad)) ;;
  perform (VideoSetAttribute "height" h).

Definition overlayOnClick_ : M Obj unit :=
  callEvent_ "AdClickThru" ;;
  modify (with_attributes (fun a => set_duration (duration a + 10) a)) ;;
  callEvent_ "AdRemainingTimeChange".

(** The [for] loop of [overlay2OnClick_]; the result is [foundSource]. *)
Fixpoint chooseSource (videos : list Video) : M Obj bool :=
  match videos with
  | [] => ret false
  | v :: later =>
      vs <- the_videoSlot ;;
      if negb (canPlayType vs (mimetype v) =? "")%string then
        perform (VideoSetAttribute "src" (VStr (url v))) ;;
        ret true
      else chooseSource later
  end.

Definition overlay2OnClick_ : M Obj unit :=
  modify (with_attributes (set_linear true)) ;;
  callEvent_ "AdLinearChange" ;;
  slot_clear ;;
  videos <- gets (fun ad => videos_ (rest_ ad)) ;;
  foundSource <- chooseSource videos ;;
  (if foundSource : bool then ret tt else callEvent_ "AdError") ;;
  _ <- the_videoSlot ;;
  perform (VideoAddEventListener "ended") ;;
  perform VideoPlay.

(** [currentTime] is what [date.getTime()] answers; [hasStyleSheet] says
    whether the new style element has a [styleSheet] property. *)
Definition startAd (currentTime : Z) (hasStyleSheet : bool) : M Obj unit :=
  log [VStr "Starting ad"] ;;
  perform (HeadAppendStyle hasStyleSheet IMG_CSS) ;;
  modify (with_startTime currentTime) ;;
  urls <- gets (fun ad => imageUrls_ (rest_ ad)) ;;
  slot_appendChild (Img (or_blank urls 0) ["animatedImg"]) ;;
  perform (NodeAddEventListener (Img (or_blank urls 0) ["animatedImg"]) "click") ;;
  urls <- gets (fun ad => imageUrls_ (rest_ ad)) ;;
  slot_appendChild (Img (or_blank urls 1) []) ;;
  perform (NodeAddEventListener (Img (or_blank urls 1) []) "click") ;;
  callEvent_ "AdStarted".

Definition resizeAd (width height viewMode : value) : M Obj unit :=
  log [VStr "resizeAd "; width; VStr "x"; height; VStr " "; viewMode] ;;
  modify (with_attributes (set_width width)) ;;
  modify (with_attributes (set_height height)) ;;
  modify (with_attributes (set_viewMode viewMode)) ;;
  updateVideoPlayerSize_ ;;
  callEvent_ "AdSizeChange".

Definition resumeAd : M Obj unit :=
  log [VStr "resumeAd"] ;;
  _ <- the_videoSlot ;;
  perform VideoPlay ;;
  callEvent_ "AdResumed".

(** The free variable [elem] of [expandAd] is looked up in the global
    scope of the page. *)
Inductive GlobalElem : Type :=
| ElemNotDefined
| ElemNullish
| ElemValue (hasRequestFullscreen : bool).

Definition expandAd (elem : GlobalElem) : M Obj unit :=
  log [VStr "expandAd"] ;;
  modify (with_attributes (set_expanded true)) ;;
  match elem with
  | ElemNotDefined => throw ReferenceError
  | ElemNullish => throw TypeError
  | ElemValue true => perform RequestFullscreen
  | ElemValue false => ret tt
  end ;;
  callEvent_ "AdExpanded".

Definition subscribe (aCallback : value) (eventName : string) (aContext : value)
    : M Obj unit :=
  log [VStr "Subscribe "; aCallback] ;;
  bind_and_store aCallback eventName aContext.

(** What the player and the page can make the ad do: the methods of the
    VPAID interface, the two click listeners, the [ended] listener and the
    timer of [stopAd]. *)
Inductive Call : Type :=
| HandshakeVersion (version : value)
| InitAd (width height viewMode desiredBitrate : value)
    (creativeData : CreativeData) (environmentVars : option EnvironmentVars)
| StartAd (currentTime : Z) (hasStyleSheet : bool)
| StopAd
| SetAdVolume (val : value)
| GetAdVolume
| ResizeAd (width height viewMode : value)
| PauseAd
| ResumeAd
| ExpandAd (elem : GlobalElem)
| GetAdExpanded
| GetAdSkippableState
| CollapseAd
| SkipAd
| Subscribe (aCallback : value) (eventName : string) (aContext : value)
| Unsubscribe (eventName : string)
| GetAdWidth
| GetAdHeight
| GetAdRemainingTime (currentTime : Z)
| GetAdDuration
| GetAdCompanions
| GetAdIcons
| GetAdLinear
| OverlayClicked
| Overlay2Clicked
| VideoEnded
| TimeoutExpired.

Definition discard {A} (m : M Obj A) : M Obj unit := _ <- m ;; ret tt.

Definition perform_call (c : Call) : M Obj unit :=
  match c with
  | HandshakeVersion v => discard (handshakeVersion v)
  | InitAd w h vm br cd env => initAd w h vm br cd env
  | StartAd now ss => startAd now ss
  | StopAd => stopAd
  | SetAdVolume v => setAdVolume v
  | GetAdVolume => discard getAdVolume
  | ResizeAd w h vm => resizeAd w h vm
  | PauseAd => pauseAd
  | ResumeAd => resumeAd
  | ExpandAd elem => expandAd elem
  | GetAdExpanded => discard getAdExpanded
  | GetAdSkippableState => discard getAdSkippableState
  | CollapseAd => collapseAd
  | SkipAd => skipAd
  | Subscribe cb n ctx => subscribe cb n ctx
  | Unsubscribe n => unsubscribe n
  | GetAdWidth => discard getAdWidth
  | GetAdHeight => discard getAdHeight
  | GetAdRemainingTime now => discard (getAdRemainingTime now)
  | GetAdDuration => discard getAdDuration
  | GetAdCompanions => discard getAdCompanions
  | GetAdIcons => discard getAdIcons
  | GetAdLinear => discard getAdLinear
  | OverlayClicked => overlayOnClick_
  | Overlay2Clicked => overlay2OnClick_
  | VideoEnded => stopAd
  | TimeoutExpired => timeout_expired ["AdStopped"]
  end.

Definition session : list Call -> Obj -> Obj * list Effect :=
  run_calls perform_call.

End Vpaid.

(** ** src/unnamed/part_000 *)
Module Part000.
Local Open Scope js_scope.

Record Fields : Type := mkFields {
  quartileEvents_ : list (string * Z);
  nextQuartileIndex_ : Z;
  parameters_ : Parsed
}.

Abbreviation Obj := (Ad Fields).

(** [new VpaidNonLinear()] *)
Definition VpaidNonLinear : Obj :=
  mkAd None None ∅
    (mkAttributes "" (VNum 256) 10 false (VNum 0) "" false false
       (VStr "normal") (VNum 0) (VNum 1))
    0
    (mkFields
       [("AdImpression", 0); ("AdVideoStart", 0); ("AdVideoFirstQuartile", 25);
        ("AdVideoMidpoint", 50); ("AdVideoThirdQuartile", 75);
        ("AdVideoComplete", 100)]
       0
       (ParsedObject None None)).

Definition getVPAIDAd : Obj := VpaidNonLinear.

Definition initAd (width height viewMode desiredBitrate : value)
    (creativeData : CreativeData) (environmentVars : option EnvironmentVars)
    : M Obj unit :=
  modify (with_attributes (set_width width)) ;;
  modify (with_attributes (set_height height)) ;;
  modify (with_attributes (set_viewMode viewMode)) ;;
  modify (with_attributes (set_desiredBitrate desiredBitrate)) ;;
  env <- match environmentVars with
         | Some env => ret env
         | None => throw TypeError
         end ;;
  modify (with_slot (slot env)) ;;
  modify (with_videoSlot (videoSlot env)) ;;
  data <- match creativeData with
          | NoCreativeData => throw TypeError
          | AdParameters Malformed => throw SyntaxError
          | AdParameters (WellFormed data) => ret data
          end ;;
  modify (with_rest (fun r =>
    mkFields (quartileEvents_ r) (nextQuartileIndex_ r) data)) ;;
  log [VStr "initAd "; width; VStr "x"; height; VStr " "; viewMode; VStr " ";
       desiredBitrate] ;;
  callEvent_ "AdLoaded".

(** [this.parameters_.overlays || []] and [this.parameters_.videos || []] *)
Definition parameters_overlays : M Obj (list string) :=
  p <- gets (fun ad => parameters_ (rest_ ad)) ;;
  match p with
  | ParsedNull => throw TypeError
  | ParsedObject overlays _ => ret (or_empty overlays)
  end.
Definition parameters_videos : M Obj (list Video) :=
  p <- gets (fun ad => parameters_ (rest_ ad)) ;;
  match p with
  | ParsedNull => throw TypeError
  | ParsedObject _ videos => ret (or_empty videos)
  end.

Definition startAd (currentTime : Z) : M Obj unit :=
  log [VStr "Starting ad"] ;;
  modify (with_startTime currentTime) ;;
  overlays <- parameters_overlays ;;
  slot_appendChild (Img (or_blank overlays 0) []) ;;
  perform (NodeAddEventListener (Img (or_blank overlays 0) []) "click") ;;
  slot_appendChild (Img (or_blank overlays 1) []) ;;
  perform (NodeAddEventListener (Img (or_blank overlays 1) []) "click") ;;
  callEvent_ "AdStarted".

(** [if ('AdClickThru' in this.eventsCallbacks_)
       this.eventsCallbacks_['AdClickThru']('', '0', true);] *)
Definition nonLinearAdClick : M Obj unit :=
  cbs <- gets eventsCallbacks_ ;;
  match cbs !! "AdClickThru" with
  | None => ret tt
  | Some (Some f) => perform (CallBound f [VStr ""; VStr "0"; VBool true])
  | Some None => throw TypeError
  end.

(** The [for] loop of [linearButtonClick]: there is no [break], every entry
    is looked at. *)
Fixpoint playSources (videos : list Video) : M Obj unit :=
  match videos with
  | [] => ret tt
  | v :: later =>
      vs <- the_videoSlot ;;
      (if negb (canPlayType vs (mimetype v) =? "")%string then
         perform (VideoSetAttribute "src" (VStr (url v))) ;;
         _ <- the_videoSlot ;;
         perform (VideoAddEventListener "ended") ;;
         _ <- the_videoSlot ;;
         perform VideoPlay
       else ret tt) ;;
      playSources later
  end.

Definition linearButtonClick : M Obj unit :=
  modify (with_attributes (set_linear true)) ;;
  callEvent_ "AdLinearChange" ;;
  slot_clear ;;
  videos <- parameters_videos ;;
  playSources videos ;;
  callEvent_ "AdError".

(** [this.updateVideoPlayerSize_()]: this file defines no such method, so
    the call throws a TypeError. *)
Definition resizeAd (width height viewMode : value) : M Obj unit :=
  log [VStr "resizeAd "; width; VStr "x"; height; VStr " "; viewMode] ;;
  modify (with_attributes (set_width width)) ;;
  modify (with_attributes (set_height height)) ;;
  modify (with_attributes (set_viewMode viewMode)) ;;
  (throw TypeError : M Obj unit) ;;
  callEvent_ "AdSizeChange".

Definition resumeAd : M Obj unit :=
  log [VStr "resumeAd"] ;;
  _ <- the_videoSlot ;;
  perform VideoPlay ;;
  callEvent_ "AdPlaying".

Definition expandAd : M Obj unit :=
  log [VStr "expandAd"] ;;
  modify (with_attributes (set_expanded true)) ;;
  callEvent_ "AdExpanded".

Definition subscribe (aCallback : value) (eventName : string) (aContext : value)
    : M Obj unit :=
  log [VStr "Subscribe "; VStr eventName] ;;
  bind_and_store aCallback eventName aContext.

Inductive Call : Type :=
| HandshakeVersion (version : value)
| InitAd (width height viewMode desiredBitrate : value)
    (creativeData : CreativeData) (environmentVars : option EnvironmentVars)
| StartAd (currentTime : Z)
| StopAd
| ResizeAd (width height viewMode : value)
| PauseAd
| ResumeAd
| ExpandAd
| CollapseAd
| SkipAd
| Subscribe (aCallback : value) (eventName : string) (aContext : value)
| Unsubscribe (eventName : string)
| GetAdLinear
| GetAdWidth
| GetAdHeight
| GetAdExpanded
| GetAdSkippableState
| GetAdRemainingTime (currentTime : Z)
| GetAdDuration
| GetAdVolume
| SetAdVolume (val : value)
| GetAdCompanions
| GetAdIcons
| NonLinearAdClick
| LinearButtonClick
| VideoEnded
| TimeoutExpired.

Definition discard {A} (m : M Obj A) : M Obj unit := _ <- m ;; ret tt.

Definition perform_call (c : Call) : M Obj unit :=
  match c with
  | HandshakeVersion v => discard (handshakeVersion v)
  | InitAd w h vm br cd env => initAd w h vm br cd env
  | StartAd now => startAd now
  | StopAd => stopAd
  | ResizeAd w h vm => resizeAd w h vm
  | PauseAd => pauseAd
  | ResumeAd => resumeAd
  | ExpandAd => expandAd
  | CollapseAd => collapseAd
  | SkipAd => skipAd
  | Subscribe cb n ctx => subscribe cb n ctx
  | Unsubscribe n => unsubscribe n
  | GetAdLinear => discard getAdLinear
  | GetAdWidth => discard getAdWidth
  | GetAdHeight => discard getAdHeight
  | GetAdExpanded => discard getAdExpanded
  | GetAdSkippableState => discard getAdSkippableState
  | GetAdRemainingTime now => discard (getAdRemainingTime now)
  | GetAdDuration => discard getAdDuration
  | GetAdVolume => discard getAdVolume
  | SetAdVolume v => setAdVolume v
  | GetAdCompanions => discard getAdCompanions
  | GetAdIcons => discard getAdIcons
  | NonLinearAdClick => nonLinearAdClick
  | LinearButtonClick => linearButtonClick
  | VideoEnded => stopAd
  | TimeoutExpired => timeout_expired ["AdStopped"]
  end.

Definition session : list Call -> Obj -> Obj * list Effect :=
  run_calls perform_call.

End Part000.

(** ** Reading a trace, and a sample page *)

(** Whether the video element reports the mime type of [v] as playable:
    [this.videoSlot_.canPlayType(v.mimetype) != ''] *)
Definition playable (vs : VideoSlot) (v : Video) : bool :=
  negb (canPlayType vs (mimetype v) =? "")%string.

(** The values the trace gives to the [src] attribute of the video element,
    in order. *)
Definition sources_set (t : list Effect) : list value :=
  omap (fun e => match e with
                 | VideoSetAttribute "src" v => Some v
                 | _ => None
                 end) t.

(** A video element that plays MP4 and nothing else, and a page with an
    empty slot and that video element. *)
Definition mp4_player : VideoSlot :=
  mkVideoSlot (fun type => if (type =? "video/mp4")%string then "maybe" else "").
Definition mp4_page : option EnvironmentVars :=
  Some (mkEnv (Some (mkSlot [])) (Some mp4_player)).

(** [creativeData] whose [AdParameters] hold the given videos and no
    overlays. *)
Definition creative_with (videos : list Video) : CreativeData :=
  AdParameters (WellFormed (ParsedObject None (Some videos))).

(** The nodes the trace removes from the slot, and the attributes it sets
    on the video element, in order. *)
Definition removed (t : list Effect) : list Node :=
  omap (fun e => match e with SlotRemoveChild n => Some n | _ => None end) t.
Definition video_attributes_set (t : list Effect) : list (string * value) :=
  omap (fun e => match e with
                 | VideoSetAttribute name v => Some (name, v)
                 | _ => None
                 end) t.

(** The event name whose registration a call writes, if any. *)
Definition Vpaid_registers (c : Vpaid.Call) : option string :=
  match c with
  | Vpaid.Subscribe _ eventName _ => Some eventName
  | Vpaid.Unsubscribe eventName => Some eventName
  | _ => None
  end.
Definition Part000_registers (c : Part000.Call) : option string :=
  match c with
  | Part000.Subscribe _ eventName _ => Some eventName
  | Part000.Unsubscribe eventName => Some eventName
  | _ => None
  end.

(** ** Predicates on objects and effects used to state invariants *)

(** The slot has exactly these children; the effect removes no child. *)
Definition slot_is {X} (children : list Node) (ad : Ad X) : Prop :=
  slot_ ad = Some (mkSlot children).
Definition no_removal (e : Effect) : Prop :=
  match e with SlotRemoveChild _ => False | _ => True end.

(** Any effect; the [linear] flag has this value. *)
Definition any_effect (e : Effect) : Prop := True.
Definition linear_is {X} (b : bool) (ad : Ad X) : Prop :=
  linear (attributes_ ad) = b.

(** The registration of [eventName] is [v]. *)
Definition registered_is {X} (eventName : string) (v : option (option BoundFn))
    (ad : Ad X) : Prop :=
  eventsCallbacks_ ad !! eventName = v.

(** [companions] and [icons] are empty; the duration is [d]. *)
Definition fixed_attributes {X} (ad : Ad X) : Prop :=
  companions (attributes_ ad) = "" /\ icons (attributes_ ad) = "".
Definition duration_is {X} (d : Z) (ad : Ad X) : Prop :=
  duration (attributes_ ad) = d.

(** Whether a call is a call of [initAd]. *)
Definition is_initAd_Vpaid (c : Vpaid.Call) : bool :=
  match c with Vpaid.InitAd _ _ _ _ _ _ => true | _ => false end.
Definition is_initAd_Part000 (c : Part000.Call) : bool :=
  match c with Part000.InitAd _ _ _ _ _ _ => true | _ => false end.

(** The object has neither slot nor video element (and is not skippable). *)
Definition not_initialised {X} (ad : Ad X) : Prop :=
  slot_ ad = None /\ videoSlot_ ad = None /\ skippableState (attributes_ ad) = false.

(** What an ad that was not initialised may do: write to the console, set
    its timer, add its style sheet, ask for full screen, and emit (and call
    the callbacks of) six events.  It touches neither the slot nor the
    video element. *)
Definition before_init_effect (e : Effect) : Prop :=
  match e with
  | ConsoleLog _ | CallBound _ _ | SetTimeout _ _ | HeadAppendStyle _ _
  | RequestFullscreen => True
  | Emit eventType =>
      In eventType ["AdVolumeChange"; "AdExpanded"; "AdStopped"; "AdClickThru";
                    "AdRemainingTimeChange"; "AdLinearChange"]
  | _ => False
  end.

(** The duration is at least [d]; the volume is [v]; whether a call is a
    call of [setAdVolume]. *)
Definition duration_at_least {X} (d : Z) (ad : Ad X) : Prop :=
  d <= duration (attributes_ ad).
Definition volume_is {X} (v : value) (ad : Ad X) : Prop :=
  volume (attributes_ ad) = v.
Definition is_setAdVolume_Vpaid (c : Vpaid.Call) : bool :=
  match c with Vpaid.SetAdVolume _ => true | _ => false end.
Definition is_setAdVolume_Part000 (c : Part000.Call) : bool :=
  match c with Part000.SetAdVolume _ => true | _ => false end.

(** The event names the two files emit. *)
Definition event_names : list string :=
  ["AdLoaded"; "AdStarted"; "AdStopped"; "AdClickThru"; "AdRemainingTimeChange";
   "AdLinearChange"; "AdError"; "AdVolumeChange"; "AdSizeChange"; "AdPaused";
   "AdResumed"; "AdPlaying"; "AdExpanded"; "AdSkipped"].

(** * Properties *)

Ltac unfold_js :=
  cbv [bind ret throw gets modify perform log result_of state_of trace_of fst snd] in *.

(** ** The event dispatcher *)

Section Dispatcher.
Context {X : Type}.
Implicit Types (ad : Ad X) (eventName eventType : string).

Lemma callEvent__absent ad eventType :
  eventsCallbacks_ ad !! eventType = None ->
  callEvent_ eventType ad = (Normal tt, ad, [Emit eventType]).
Proof. intros H. unfold callEvent_. unfold_js. now rewrite H. Qed.

Lemma callEvent__function ad eventType f :
  eventsCallbacks_ ad !! eventType = Some (Some f) ->
  callEvent_ eventType ad = (Normal tt, ad, [Emit eventType; CallBound f []]).
Proof. intros H. unfold callEvent_. unfold_js. now rewrite H. Qed.

Lemma callEvent__null ad eventType :
  eventsCallbacks_ ad !! eventType = Some None ->
  callEvent_ eventType ad = (Throws TypeError, ad, [Emit eventType]).
Proof. intros H. unfold callEvent_. unfold_js. now rewrite H. Qed.

(** [callEvent_] never changes the object. *)
Lemma callEvent__state ad eventType : state_of (callEvent_ eventType ad) = ad.
Proof.
  unfold callEvent_. unfold_js.
  now destruct (eventsCallbacks_ ad !! eventType) as [[f|]|].
Qed.

(** [callEvent_] emits its event, and nothing else. *)
Lemma callEvent__emitted ad eventType :
  emitted (trace_of (callEvent_ eventType ad)) = [eventType].
Proof.
  unfold callEvent_. unfold_js.
  now destruct (eventsCallbacks_ ad !! eventType) as [[f|]|].
Qed.

Lemma unsubscribe_slot ad eventName :
  eventsCallbacks_ (state_of (unsubscribe eventName ad)) !! eventName = Some None.
Proof. unfold unsubscribe. unfold_js. cbn. apply lookup_insert_eq. Qed.

(** After [unsubscribe(eventName)] the property holds [null], and the
    dispatcher calls it: no callback runs, and a TypeError is thrown. *)
Lemma callEvent__after_unsubscribe ad eventName :
  let ad' := state_of (unsubscribe eventName ad) in
  callEvent_ eventName ad' = (Throws TypeError, ad', [Emit eventName]).
Proof. intros ad'. apply callEvent__null, unsubscribe_slot. Qed.

Lemma bind_and_store_slot ad f eventName aContext :
  let r := bind_and_store (VFun f) eventName aContext ad in
  result_of r = Normal tt /\
  trace_of r = [] /\
  eventsCallbacks_ (state_of r) !! eventName = Some (Some (mkBound f aContext)).
Proof. cbn. repeat split. apply lookup_insert_eq. Qed.

End Dispatcher.

(** ** Claims *)

(** C5: for every [version], [handshakeVersion(version)] returns the string
    ["2.0"], leaves the object as it was and has no effect.  The method is
    the same in both files. *)
Theorem handshakeVersion_returns_2_0 :
  forall (X : Type) (ad : Ad X) (version : value),
    handshakeVersion version ad = (Normal (VStr "2.0"), ad, []).
Proof. reflexivity. Qed.

(** C1 (the code departs from it): on a new object, [unsubscribe] of
    [AdVolumeChange] followed by [setAdVolume(3)], which emits that event,
    calls no callback but ends in a TypeError instead of doing nothing.
    This holds for both files. *)
Theorem unsubscribe_then_setAdVolume_throws :
  let run {X} (ad : Ad X) :=
    bind (unsubscribe "AdVolumeChange") (fun _ => setAdVolume (VNum 3)) ad in
  (result_of (run Vpaid.VpaidNonLinear) = Throws TypeError /\
   emitted (trace_of (run Vpaid.VpaidNonLinear)) = ["AdVolumeChange"] /\
   called (trace_of (run Vpaid.VpaidNonLinear)) = []) /\
  (result_of (run Part000.VpaidNonLinear) = Throws TypeError /\
   emitted (trace_of (run Part000.VpaidNonLinear)) = ["AdVolumeChange"] /\
   called (trace_of (run Part000.VpaidNonLinear)) = []).
Proof. vm_compute. repeat split. Qed.

Lemma run_calls_app {X C : Type} (perform_call : C -> M (Ad X) unit)
    (before after : list C) (ad : Ad X) :
  run_calls perform_call (before ++ after) ad =
    let r := run_calls perform_call before ad in
    let r' := run_calls perform_call after r.1 in
    (r'.1, (r.2 ++ r'.2)%list).
Proof.
  revert ad. induction before as [|c before IH]; intros ad; cbn.
  - now destruct (run_calls perform_call after ad).
  - rewrite IH. cbn. now rewrite app_assoc.
Qed.

(** C7: after any number of [subscribe] calls for [eventName], the last one
    registering the function [f] with context [aContext], emitting the event
    returns normally and calls exactly one callback, once and without
    arguments: [f] bound to [aContext].  None of the [earlier] registrations
    is called.  This holds for both files. *)
Theorem subscribe_then_emit_calls_latest_once :
  forall (earlier : list (nat * value)) (f : nat) (aContext : value)
         (eventName : string),
    (forall ad : Vpaid.Obj,
       let subscribes :=
         map (fun r => Vpaid.Subscribe (VFun r.1) eventName r.2)
             (earlier ++ [(f, aContext)]) in
       let ad' := (Vpaid.session subscribes ad).1 in
       callEvent_ eventName ad' =
         (Normal tt, ad', [Emit eventName; CallBound (mkBound f aContext) []])) /\
    (forall ad : Part000.Obj,
       let subscribes :=
         map (fun r => Part000.Subscribe (VFun r.1) eventName r.2)
             (earlier ++ [(f, aContext)]) in
       let ad' := (Part000.session subscribes ad).1 in
       callEvent_ eventName ad' =
         (Normal tt, ad', [Emit eventName; CallBound (mkBound f aContext) []])).
Proof.
  intros earlier f aContext eventName. split; intros ad subscribes ad';
    apply callEvent__function; subst ad' subscribes;
    rewrite map_app;
    [ unfold Vpaid.session | unfold Part000.session ];
    rewrite run_calls_app; cbn; apply lookup_insert_eq.
Qed.

(** C8: [skipAd] emits [AdSkipped] exactly when [skippableState] is true at
    the call.  When it is true, the call is the console line followed by
    the run of [callEvent_('AdSkipped')]: it calls the registered callback
    once and returns, returns silently without registration, and throws a
    TypeError on a [null] registration.  When it is false the call returns
    normally, leaves the object as it was, emits nothing, and only writes
    its line to the console.  In neither case does the object change. *)
Theorem skipAd_emits_AdSkipped_iff_skippable :
  forall (X : Type) (ad : Ad X),
    let r := skipAd ad in
    (In "AdSkipped" (emitted (trace_of r)) <->
       skippableState (attributes_ ad) = true) /\
    (skippableState (attributes_ ad) = false ->
       r = (Normal tt, ad, [ConsoleLog [VStr "skipAd"]])) /\
    (skippableState (attributes_ ad) = true ->
       r = (result_of (callEvent_ "AdSkipped" ad), ad,
            ConsoleLog [VStr "skipAd"] :: trace_of (callEvent_ "AdSkipped" ad)) /\
       match eventsCallbacks_ ad !! "AdSkipped" with
       | Some (Some f) =>
           r = (Normal tt, ad,
                [ConsoleLog [VStr "skipAd"]; Emit "AdSkipped"; CallBound f []])
       | Some None =>
           r = (Throws TypeError, ad,
                [ConsoleLog [VStr "skipAd"]; Emit "AdSkipped"])
       | None =>
           r = (Normal tt, ad, [ConsoleLog [VStr "skipAd"]; Emit "AdSkipped"])
       end).
Proof.
  intros X ad. unfold skipAd, callEvent_. unfold_js.
  destruct (skippableState (attributes_ ad)); cbn.
  - split; [| split; [discriminate | intros _]];
      destruct (eventsCallbacks_ ad !! "AdSkipped") as [[f|]|]; cbn; intuition.
  - split; [| split; [reflexivity | discriminate]].
    split; [intros [] | discriminate].
Qed.

Lemma stopAd_run {X : Type} (ad : Ad X) :
  stopAd ad =
    (Normal tt, ad, [ConsoleLog [VStr "Stopping ad"]; SetTimeout 75 ["AdStopped"]]).
Proof. reflexivity. Qed.

(** C9: [stopAd] returns normally without emitting anything: it writes its
    line to the console and sets a timer of 75 ms, and leaves the object as
    it was.  [AdStopped] is emitted when the timer expires.  Hence in any
    session, whatever was emitted by the calls [before] the [stopAd] and
    during it precedes that [AdStopped].  This holds for both files. *)
Theorem stopAd_defers_AdStopped :
  (forall (X : Type) (ad : Ad X),
     stopAd ad =
       (Normal tt, ad,
        [ConsoleLog [VStr "Stopping ad"]; SetTimeout 75 ["AdStopped"]]) /\
     emitted (trace_of (stopAd ad)) = [] /\
     timeout_expired ["AdStopped"] ad = callEvent_ "AdStopped" ad /\
     emitted (trace_of (timeout_expired ["AdStopped"] ad)) = ["AdStopped"]) /\
  (forall (before : list Vpaid.Call) (ad : Vpaid.Obj),
     let r := Vpaid.session before ad in
     Vpaid.session (before ++ [Vpaid.StopAd; Vpaid.TimeoutExpired]) ad =
       (r.1,
        (r.2 ++ [ConsoleLog [VStr "Stopping ad"]; SetTimeout 75 ["AdStopped"]]
             ++ trace_of (callEvent_ "AdStopped" r.1))%list)) /\
  (forall (before : list Part000.Call) (ad : Part000.Obj),
     let r := Part000.session before ad in
     Part000.session (before ++ [Part000.StopAd; Part000.TimeoutExpired]) ad =
       (r.1,
        (r.2 ++ [ConsoleLog [VStr "Stopping ad"]; SetTimeout 75 ["AdStopped"]]
             ++ trace_of (callEvent_ "AdStopped" r.1))%list)).
Proof.
  split; [| split].
  - intros X ad. repeat split. apply (callEvent__emitted ad "AdStopped").
  - intros before ad r. unfold Vpaid.session. rewrite run_calls_app.
    fold (Vpaid.session before ad). fold r.
    cbn [run_calls Vpaid.perform_call]. rewrite (stopAd_run r.1).
    unfold timeout_expired.
    change (array_toString ["AdStopped"]) with "AdStopped".
    cbn [state_of trace_of fst snd app].
    rewrite (callEvent__state r.1 "AdStopped"). now rewrite app_nil_r.
  - intros before ad r. unfold Part000.session. rewrite run_calls_app.
    fold (Part000.session before ad). fold r.
    cbn [run_calls Part000.perform_call]. rewrite (stopAd_run r.1).
    unfold timeout_expired.
    change (array_toString ["AdStopped"]) with "AdStopped".
    cbn [state_of trace_of fst snd app].
    rewrite (callEvent__state r.1 "AdStopped"). now rewrite app_nil_r.
Qed.

(** C6: for all [width] and [height] (negative numbers and values that are
    not numbers included), after [initAd(width, height, ...)] the getters
    [getAdWidth] and [getAdHeight] return those very values; this holds
    whether [initAd] returns or throws, and for both files. *)
Theorem initAd_then_getAdWidth_getAdHeight :
  forall (width height viewMode desiredBitrate : value)
         (creativeData : CreativeData) (environmentVars : option EnvironmentVars),
    (forall ad : Vpaid.Obj,
       let ad' := state_of (Vpaid.initAd width height viewMode desiredBitrate
                              creativeData environmentVars ad) in
       getAdWidth ad' = (Normal width, ad', []) /\
       getAdHeight ad' = (Normal height, ad', [])) /\
    (forall ad : Part000.Obj,
       let ad' := state_of (Part000.initAd width height viewMode desiredBitrate
                              creativeData environmentVars ad) in
       getAdWidth ad' = (Normal width, ad', []) /\
       getAdHeight ad' = (Normal height, ad', [])).
Proof.
  intros width height viewMode desiredBitrate creativeData environmentVars.
  split; intros ad ad'; subst ad'; unfold getAdWidth, getAdHeight, gets.
  - unfold Vpaid.initAd, callEvent_. unfold_js.
    destruct environmentVars as [env|]; [| now cbn].
    destruct creativeData as [|[|[|overlays videos]]]; try now cbn.
    cbn. now destruct (eventsCallbacks_ ad !! "AdLoaded") as [[f|]|].
  - unfold Part000.initAd, callEvent_. unfold_js.
    destruct environmentVars as [env|]; [| now cbn].
    destruct creativeData as [|[|data]]; try now cbn.
    cbn. now destruct (eventsCallbacks_ ad !! "AdLoaded") as [[f|]|].
Qed.

(** ** Invariants of a session *)

Section Keeps.
Context {S : Type} (I : S -> Prop) (T : Effect -> Prop).

Lemma keeps_ret {A} (a : A) : keeps I T (ret a).
Proof. intros s Hs. split; [exact Hs | constructor]. Qed.

Lemma keeps_throw {A} (e : Exn) : keeps I T (throw e : M S A).
Proof. intros s Hs. split; [exact Hs | constructor]. Qed.

Lemma keeps_gets {A} (f : S -> A) : keeps I T (gets f).
Proof. intros s Hs. split; [exact Hs | constructor]. Qed.

Lemma keeps_modify (f : S -> S) :
  (forall s, I s -> I (f s)) -> keeps I T (modify f).
Proof. intros Hf s Hs. split; [now apply Hf | constructor]. Qed.

Lemma keeps_perform (e : Effect) : T e -> keeps I T (perform e).
Proof. intros He s Hs. split; [exact Hs | now repeat constructor]. Qed.

Lemma keeps_bind {A B} (m : M S A) (k : A -> M S B) :
  keeps I T m -> (forall a, keeps I T (k a)) -> keeps I T (bind m k).
Proof.
  intros Hm Hk s Hs. specialize (Hm s Hs). unfold bind.
  destruct (m s) as [[[a|e] s'] t]; cbn in *; [| exact Hm].
  destruct Hm as [Hs' Ht]. specialize (Hk a s' Hs').
  destruct (k a s') as [[r s''] t']; cbn in *.
  destruct Hk as [Hs'' Ht']. split; [exact Hs'' | now apply Forall_app].
Qed.

Lemma keeps_run_calls {X C} (J : Ad X -> Prop) (perform_call : C -> M (Ad X) unit) :
  (forall c, keeps J T (perform_call c)) ->
  forall calls ad, J ad ->
    J (run_calls perform_call calls ad).1 /\
    Forall T (run_calls perform_call calls ad).2.
Proof.
  intros Hc calls. induction calls as [|c calls IH]; intros ad Had; cbn.
  - split; [exact Had | constructor].
  - destruct (Hc c ad Had) as [Had' Ht].
    destruct (IH _ Had') as [Hfin Ht']. split; [exact Hfin | now apply Forall_app].
Qed.

End Keeps.

Lemma not_AdSkipped_emitted (t : list Effect) :
  Forall not_AdSkipped t -> ~ In "AdSkipped" (emitted t).
Proof.
  induction 1 as [|e t He Ht IH]; cbn; [tauto |].
  unfold emitted in *. cbn. destruct e; try exact IH.
  cbn. intros [->|Hin]; [now apply He | now apply IH].
Qed.

Ltac keeps_step :=
  first
    [ apply keeps_ret
    | apply keeps_throw
    | apply keeps_gets
    | apply keeps_bind; [| intros ?]
    | apply keeps_modify; intros ? ?; assumption
    | apply keeps_perform; unfold not_AdSkipped; discriminate
    | match goal with
      | |- keeps _ _ (match ?x with _ => _ end) => destruct x
      | |- keeps _ _ (if ?x then _ else _) => destruct x
      end ].
Ltac keeps_auto := repeat keeps_step.

Section SkippableShared.
Context {X : Type}.
Local Abbreviation quiet := (keeps (@not_skippable X) not_AdSkipped).

Lemma quiet_callEvent_ (eventType : string) :
  eventType <> "AdSkipped" -> quiet (callEvent_ eventType).
Proof.
  intros Hne. unfold callEvent_. apply keeps_bind.
  - apply keeps_perform. unfold not_AdSkipped. congruence.
  - intros _. keeps_auto.
Qed.

Lemma quiet_the_slot : quiet the_slot.
Proof. unfold the_slot. keeps_auto. Qed.

Lemma quiet_the_videoSlot : quiet the_videoSlot.
Proof. unfold the_videoSlot. keeps_auto. Qed.

Lemma quiet_slot_appendChild (n : Node) : quiet (slot_appendChild n).
Proof. unfold slot_appendChild, the_slot. keeps_auto. Qed.

Lemma quiet_removeChildren (children : list Node) : quiet (removeChildren children).
Proof. induction children as [|c rest IH]; cbn [removeChildren]; keeps_auto. exact IH. Qed.

Lemma quiet_slot_clear : quiet slot_clear.
Proof. unfold slot_clear, the_slot. keeps_auto; apply quiet_removeChildren. Qed.

Lemma quiet_skipAd : quiet skipAd.
Proof.
  intros ad Had. unfold skipAd. unfold_js. unfold not_skippable in Had.
  rewrite Had. cbn. split; [exact Had |]. repeat constructor. discriminate.
Qed.

Lemma quiet_bind_and_store (aCallback : value) (eventName : string) (aContext : value) :
  quiet (bind_and_store aCallback eventName aContext).
Proof. unfold bind_and_store. keeps_auto. Qed.

End SkippableShared.

Ltac quiet_step :=
  first
    [ apply quiet_skipAd
    | apply quiet_callEvent_; discriminate
    | apply quiet_the_slot
    | apply quiet_the_videoSlot
    | apply quiet_slot_appendChild
    | apply quiet_slot_clear
    | apply quiet_bind_and_store
    | keeps_step ].
Ltac quiet_auto := repeat quiet_step.

Lemma Vpaid_quiet_chooseSource (videos : list Video) :
  keeps not_skippable not_AdSkipped (Vpaid.chooseSource videos).
Proof.
  induction videos as [|v later IH]; cbn [Vpaid.chooseSource]; quiet_auto.
  exact IH.
Qed.

Lemma Vpaid_quiet_perform_call (c : Vpaid.Call) :
  keeps not_skippable not_AdSkipped (Vpaid.perform_call c).
Proof.
  destruct c; cbn [Vpaid.perform_call];
    unfold Vpaid.discard, handshakeVersion, Vpaid.initAd, Vpaid.startAd, stopAd,
      setAdVolume, getAdVolume, Vpaid.resizeAd, Vpaid.updateVideoPlayerSize_,
      pauseAd, Vpaid.resumeAd, Vpaid.expandAd, getAdExpanded,
      getAdSkippableState, collapseAd, Vpaid.subscribe, unsubscribe, getAdWidth,
      getAdHeight, getAdRemainingTime, getAdDuration, getAdCompanions,
      getAdIcons, getAdLinear, Vpaid.overlayOnClick_, Vpaid.overlay2OnClick_,
      timeout_expired, log;
    quiet_auto.
  apply Vpaid_quiet_chooseSource.
Qed.

Lemma Part000_quiet_playSources (videos : list Video) :
  keeps not_skippable not_AdSkipped (Part000.playSources videos).
Proof.
  induction videos as [|v later IH]; cbn [Part000.playSources]; quiet_auto.
  all: exact IH.
Qed.

Lemma Part000_quiet_perform_call (c : Part000.Call) :
  keeps not_skippable not_AdSkipped (Part000.perform_call c).
Proof.
  destruct c; cbn [Part000.perform_call];
    unfold Part000.discard, handshakeVersion, Part000.initAd, Part000.startAd,
      Part000.parameters_overlays, Part000.parameters_videos, stopAd,
      setAdVolume, getAdVolume, Part000.resizeAd, pauseAd, Part000.resumeAd,
      Part000.expandAd, getAdExpanded, getAdSkippableState, collapseAd,
      Part000.subscribe, unsubscribe, getAdWidth, getAdHeight,
      getAdRemainingTime, getAdDuration, getAdCompanions, getAdIcons,
      getAdLinear, Part000.nonLinearAdClick, Part000.linearButtonClick,
      timeout_expired, log;
    quiet_auto.
  apply Part000_quiet_playSources.
Qed.

(** C10: [skippableState] is false in a new object, and stays false through
    every session of calls of the player and the page (methods, click and
    [ended] listeners, timer); no such session ever emits [AdSkipped], so
    [skipAd] never does.  This holds for both files. *)
Theorem skippableState_stays_false :
  (skippableState (attributes_ Vpaid.VpaidNonLinear) = false /\
   forall calls : list Vpaid.Call,
     let r := Vpaid.session calls Vpaid.VpaidNonLinear in
     skippableState (attributes_ r.1) = false /\
     ~ In "AdSkipped" (emitted r.2)) /\
  (skippableState (attributes_ Part000.VpaidNonLinear) = false /\
   forall calls : list Part000.Call,
     let r := Part000.session calls Part000.VpaidNonLinear in
     skippableState (attributes_ r.1) = false /\
     ~ In "AdSkipped" (emitted r.2)).
Proof.
  split; (split; [reflexivity |]); intros calls r; subst r.
  - destruct (keeps_run_calls not_AdSkipped not_skippable Vpaid.perform_call
                Vpaid_quiet_perform_call calls Vpaid.VpaidNonLinear eq_refl)
      as [Hs Ht].
    split; [exact Hs | now apply not_AdSkipped_emitted].
  - destruct (keeps_run_calls not_AdSkipped not_skippable Part000.perform_call
                Part000_quiet_perform_call calls Part000.VpaidNonLinear eq_refl)
      as [Hs Ht].
    split; [exact Hs | now apply not_AdSkipped_emitted].
Qed.

(** ** The second overlay click *)

Section Loops.
Context {X : Type}.
Implicit Types (ad : Ad X).

Lemma removeChildren_run (children : list Node) ad :
  removeChildren children ad =
    (Normal tt,
     match children with [] => ad | _ => with_slot (Some (mkSlot [])) ad end,
     map SlotRemoveChild children).
Proof.
  revert ad. induction children as [|c rest IH]; intros ad; [reflexivity |].
  cbn [removeChildren]. unfold_js. rewrite IH. cbn.
  now destruct rest.
Qed.

Lemma slot_clear_run ad s :
  slot_ ad = Some s ->
  slot_clear ad =
    (Normal tt,
     match childNodes s with [] => ad | _ => with_slot (Some (mkSlot [])) ad end,
     map SlotRemoveChild (childNodes s)).
Proof.
  intros Hs. unfold slot_clear, the_slot. unfold_js. rewrite Hs.
  now rewrite removeChildren_run.
Qed.

Lemma slot_clear_null ad :
  slot_ ad = None -> slot_clear ad = (Throws TypeError, ad, []).
Proof. intros Hs. unfold slot_clear, the_slot. unfold_js. now rewrite Hs. Qed.

End Loops.

(** The loop of src/vpaid/VpaidNonLinear.js stops at the first playable
    entry. *)
Lemma Vpaid_chooseSource_run (videos : list Video) (ad : Vpaid.Obj) (vs : VideoSlot) :
  videoSlot_ ad = Some vs ->
  Vpaid.chooseSource videos ad =
    (Normal (existsb (playable vs) videos), ad,
     match find (playable vs) videos with
     | Some v => [VideoSetAttribute "src" (VStr (url v))]
     | None => []
     end).
Proof.
  intros Hvs. induction videos as [|v later IH]; [reflexivity |].
  cbn [Vpaid.chooseSource existsb find]. unfold the_videoSlot. unfold_js.
  rewrite Hvs. fold (playable vs v).
  destruct (playable vs v); [reflexivity |]. now rewrite IH.
Qed.


(** *** Reading the trace of a sequence *)

Lemma trace_of_bind {S A B} (m : M S A) (k : A -> M S B) (s : S) :
  trace_of (bind m k s) =
    (trace_of (m s) ++
     match result_of (m s) with
     | Normal a => trace_of (k a (state_of (m s)))
     | Throws _ => []
     end)%list.
Proof.
  unfold bind. unfold_js. destruct (m s) as [[[a|e] s'] t]; cbn.
  - now destruct (k a s') as [[r s''] t'].
  - now rewrite app_nil_r.
Qed.

Lemma emitted_app (t t' : list Effect) :
  emitted (t ++ t') = (emitted t ++ emitted t')%list.
Proof. apply omap_app. Qed.

Lemma sources_set_app (t t' : list Effect) :
  sources_set (t ++ t') = (sources_set t ++ sources_set t')%list.
Proof. apply omap_app. Qed.

Lemma emitted_removals (children : list Node) :
  emitted (map SlotRemoveChild children) = [].
Proof. now induction children. Qed.

Lemma sources_set_removals (children : list Node) :
  sources_set (map SlotRemoveChild children) = [].
Proof. now induction children. Qed.

Lemma existsb_find {A} (p : A -> bool) (l : list A) :
  existsb p l = match find p l with Some _ => true | None => false end.
Proof. induction l as [|a l IH]; cbn; [reflexivity |]. now destruct (p a). Qed.

Section Emission.
Context {X : Type}.
Implicit Types (ad : Ad X).

Lemma callEvent__result ad eventType :
  eventsCallbacks_ ad !! eventType <> Some None ->
  result_of (callEvent_ eventType ad) = Normal tt.
Proof.
  intros H. unfold callEvent_. unfold_js.
  now destruct (eventsCallbacks_ ad !! eventType) as [[f|]|].
Qed.

Lemma callEvent__sources_set ad eventType :
  sources_set (trace_of (callEvent_ eventType ad)) = [].
Proof.
  unfold callEvent_. unfold_js.
  now destruct (eventsCallbacks_ ad !! eventType) as [[f|]|].
Qed.

(** The end of [overlay2OnClick_] emits nothing and sets no source. *)
Lemma listen_and_play_trace ad :
  let t := trace_of (bind the_videoSlot (fun _ =>
             bind (perform (VideoAddEventListener "ended")) (fun _ =>
               perform VideoPlay)) ad) in
  emitted t = [] /\ sources_set t = [].
Proof. unfold the_videoSlot. unfold_js. now destruct (videoSlot_ ad). Qed.

End Emission.

(** In src/vpaid/VpaidNonLinear.js, on an object with a slot and a video
    element and whose [AdLinearChange] property is not [null], the second
    overlay click emits [AdLinearChange], then [AdError] exactly when no
    entry of [videos_] is playable; and it sets as source the url of the
    first playable entry and nothing else. *)
Lemma Vpaid_overlay2OnClick__trace (ad : Vpaid.Obj) (s : Slot) (vs : VideoSlot) :
  slot_ ad = Some s ->
  videoSlot_ ad = Some vs ->
  eventsCallbacks_ ad !! "AdLinearChange" <> Some None ->
  let t := trace_of (Vpaid.overlay2OnClick_ ad) in
  emitted t =
    "AdLinearChange" ::
      (if existsb (playable vs) (Vpaid.videos_ (rest_ ad)) then [] else ["AdError"]) /\
  sources_set t =
    match find (playable vs) (Vpaid.videos_ (rest_ ad)) with
    | Some v => [VStr (url v)]
    | None => []
    end.
Proof.
  intros Hs Hvs Hcb t. subst t. unfold Vpaid.overlay2OnClick_.
  set (ad1 := with_attributes (set_linear true) ad).
  rewrite trace_of_bind. cbn [modify trace_of result_of state_of fst snd app].
  fold ad1.
  rewrite trace_of_bind, callEvent__result, callEvent__state by exact Hcb.
  rewrite trace_of_bind, (slot_clear_run ad1 s Hs).
  cbn [trace_of result_of state_of fst snd].
  set (ad2 := match childNodes s with [] => ad1 | _ => _ end).
  assert (Hvs2 : videoSlot_ ad2 = Some vs) by (subst ad2; now destruct (childNodes s)).
  assert (Hvid : Vpaid.videos_ (rest_ ad2) = Vpaid.videos_ (rest_ ad))
    by (subst ad2; now destruct (childNodes s)).
  rewrite trace_of_bind. cbn [gets trace_of result_of state_of fst snd app].
  rewrite Hvid.
  rewrite trace_of_bind, (Vpaid_chooseSource_run _ ad2 vs Hvs2).
  cbn [trace_of result_of state_of fst snd].
  rewrite trace_of_bind.
  rewrite !emitted_app, !sources_set_app, callEvent__emitted, callEvent__sources_set.
  rewrite existsb_find, emitted_removals, sources_set_removals.
  destruct (find (playable vs) (Vpaid.videos_ (rest_ ad))) as [v|].
  - cbn [ret trace_of result_of state_of fst snd].
    destruct (listen_and_play_trace ad2) as [-> ->]. now cbn.
  - rewrite callEvent__emitted, callEvent__sources_set, callEvent__state.
    destruct (result_of (callEvent_ "AdError" ad2)); [| now cbn].
    destruct (listen_and_play_trace ad2) as [-> ->]. now cbn.
Qed.




(** C2 (the code of src/unnamed/part_000 departs from it): the ad is
    initialised with one video, which the video element can play; the click
    on the linear button sets it as source, plays it, returns normally, and
    emits [AdError] all the same. *)
Theorem linearButtonClick_emits_AdError_with_playable_source :
  let ad := state_of (Part000.initAd (VNum 640) (VNum 360) (VStr "normal") (VNum 256)
                        (creative_with [mkVideo "a.mp4" "video/mp4"]) mp4_page
                        Part000.VpaidNonLinear) in
  existsb (playable mp4_player) [mkVideo "a.mp4" "video/mp4"] = true /\
  Part000.linearButtonClick ad =
    (Normal tt, with_attributes (set_linear true) ad,
     [Emit "AdLinearChange";
      VideoSetAttribute "src" (VStr "a.mp4"); VideoAddEventListener "ended"; VideoPlay;
      Emit "AdError"]).
Proof. split; reflexivity. Qed.

(** C3 (the code of src/unnamed/part_000 departs from it): the ad is
    initialised with two videos, both playable; the click on the linear
    button sets the url of the first as source, then the url of the second,
    which is the one the video element is left with. *)
Theorem linearButtonClick_sets_later_source :
  let videos := [mkVideo "a.mp4" "video/mp4"; mkVideo "b.mp4" "video/mp4"] in
  let ad := state_of (Part000.initAd (VNum 640) (VNum 360) (VStr "normal") (VNum 256)
                        (creative_with videos) mp4_page Part000.VpaidNonLinear) in
  find (playable mp4_player) videos = Some (mkVideo "a.mp4" "video/mp4") /\
  sources_set (trace_of (Part000.linearButtonClick ad)) = [VStr "a.mp4"; VStr "b.mp4"].
Proof. split; reflexivity. Qed.

(** C4 (the code of src/vpaid/VpaidNonLinear.js departs from it): on a page
    whose global scope has no [elem], [expandAd] on a new object sets the
    [expanded] flag and then throws a ReferenceError: it does not return
    normally and emits nothing. *)
Theorem expandAd_throws_without_elem :
  let r := Vpaid.expandAd Vpaid.ElemNotDefined Vpaid.VpaidNonLinear in
  result_of r = Throws ReferenceError /\
  expanded (attributes_ (state_of r)) = true /\
  emitted (trace_of r) = [] /\
  trace_of r = [ConsoleLog [VStr "expandAd"]].
Proof. repeat split. Qed.

(** ** What the sibling file does at the same places *)


Lemma find_first {A} (p : A -> bool) (before : list A) (a : A) (after : list A) :
  (forall b, In b before -> p b = false) -> p a = true ->
  find p (before ++ a :: after) = Some a.
Proof.
  intros Hb Ha. induction before as [|b before IH]; cbn.
  - now rewrite Ha.
  - rewrite (Hb b) by now left. apply IH. intros b' Hin. apply Hb. now right.
Qed.



(** X2: in src/vpaid/VpaidNonLinear.js, under the same conditions, when [v]
    is the first playable entry of [videos_], the second overlay click sets
    the url of [v] as source, and sets no other source. *)
Theorem overlay2OnClick__sets_first_playable
    (ad : Vpaid.Obj) (s : Slot) (vs : VideoSlot)
    (before : list Video) (v : Video) (after : list Video) :
  slot_ ad = Some s ->
  videoSlot_ ad = Some vs ->
  eventsCallbacks_ ad !! "AdLinearChange" <> Some None ->
  Vpaid.videos_ (rest_ ad) = (before ++ v :: after)%list ->
  (forall u, In u before -> playable vs u = false) ->
  playable vs v = true ->
  sources_set (trace_of (Vpaid.overlay2OnClick_ ad)) = [VStr (url v)].
Proof.
  intros Hs Hvs Hcb Hvid Hbefore Hv.
  destruct (Vpaid_overlay2OnClick__trace ad s vs Hs Hvs Hcb) as [_ ->].
  now rewrite Hvid, (find_first _ _ _ _ Hbefore Hv).
Qed.

Lemma overlay2OnClick__sets_first_playable_witness :
  let ad := state_of (Vpaid.initAd (VNum 640) (VNum 360) (VStr "normal") (VNum 256)
                        (creative_with [mkVideo "a.webm" "video/webm";
                                        mkVideo "b.mp4" "video/mp4";
                                        mkVideo "c.mp4" "video/mp4"]) mp4_page
                        Vpaid.VpaidNonLinear) in
  sources_set (trace_of (Vpaid.overlay2OnClick_ ad)) = [VStr "b.mp4"].
Proof.
  apply (overlay2OnClick__sets_first_playable _ (mkSlot []) mp4_player
           [mkVideo "a.webm" "video/webm"] (mkVideo "b.mp4" "video/mp4")
           [mkVideo "c.mp4" "video/mp4"]);
    [ reflexivity | reflexivity | vm_compute; discriminate | reflexivity
    | intros u [<-|[]]; reflexivity | reflexivity ].
Defined.


(** * Further properties of the methods *)

Lemma state_of_bind {S A B} (m : M S A) (k : A -> M S B) (s : S) :
  state_of (bind m k s) =
    match result_of (m s) with
    | Normal a => state_of (k a (state_of (m s)))
    | Throws _ => state_of (m s)
    end.
Proof.
  unfold bind. unfold_js. destruct (m s) as [[[a|e] s'] t]; cbn; [| reflexivity].
  now destruct (k a s') as [[r s''] t'].
Qed.

Lemma result_of_bind {S A B} (m : M S A) (k : A -> M S B) (s : S) :
  result_of (bind m k s) =
    match result_of (m s) with
    | Normal a => result_of (k a (state_of (m s)))
    | Throws e => Throws e
    end.
Proof.
  unfold bind. unfold_js. destruct (m s) as [[[a|e] s'] t]; cbn; [| reflexivity].
  now destruct (k a s') as [[r s''] t'].
Qed.

(** Case analysis on the registrations the goal looks up, one after the
    other as computation uncovers them. *)
Ltac case_lookups :=
  repeat (cbn;
          match goal with
          | |- context [match ?m !! ?k with _ => _ end] =>
              destruct (m !! k) as [[?|]|] eqn:?
          end);
  cbn.

(** ** Volume and size *)



(** X6: in src/unnamed/part_000, [resizeAd] stores the three values and
    then calls [updateVideoPlayerSize_], which that file does not define:
    the call always throws a TypeError, sets no attribute of the video
    element and never emits [AdSizeChange]. *)
Theorem Part000_resizeAd_always_throws :
  forall (ad : Part000.Obj) (w h vm : value),
    let r := Part000.resizeAd w h vm ad in
    result_of r = Throws TypeError /\
    getAdWidth (state_of r) = (Normal w, state_of r, []) /\
    getAdHeight (state_of r) = (Normal h, state_of r, []) /\
    viewMode (attributes_ (state_of r)) = vm /\
    video_attributes_set (trace_of r) = [] /\
    emitted (trace_of r) = [].
Proof. intros ad w h vm. now repeat split. Qed.

(** ** The first overlay click and the remaining time *)




Lemma Vpaid_startAd_clock (ad : Vpaid.Obj) (t0 : Z) (hasStyleSheet : bool) :
  let ad' := state_of (Vpaid.startAd t0 hasStyleSheet ad) in
  startTime_ ad' = t0 /\ attributes_ ad' = attributes_ ad.
Proof.
  destruct ad as [[s|] vs cbs attrs st rest];
    unfold Vpaid.startAd, slot_appendChild, the_slot, callEvent_; unfold_js; cbn;
    [| now split].
  destruct (cbs !! "AdStarted") as [[f|]|]; now cbn.
Qed.

Lemma Part000_startAd_clock (ad : Part000.Obj) (t0 : Z) :
  let ad' := state_of (Part000.startAd t0 ad) in
  startTime_ ad' = t0 /\ attributes_ ad' = attributes_ ad.
Proof.
  destruct ad as [[s|] vs cbs attrs st [q i [|overlays videos]]];
    unfold Part000.startAd, Part000.parameters_overlays, slot_appendChild,
      the_slot, callEvent_; unfold_js; cbn; try now split.
  destruct (cbs !! "AdStarted") as [[f|]|]; now cbn.
Qed.

(** X8: [startAd] records the clock reading [t0] before anything in it can
    fail and leaves the duration alone; so afterwards, whether it returned
    or threw, [getAdRemainingTime] at clock reading [now] returns normally,
    leaves the object as it is, and returns the duration minus the seconds
    elapsed since [t0], computed in binary64 as the code does: the
    difference of the readings, divided by 1000, subtracted from the
    duration.  On a new object of either file, 274 ms after the start, that
    is 9.725999999999999, not the double nearest to 9.726. *)
Theorem getAdRemainingTime_after_startAd :
  forall (t0 now : Z),
    (forall (ad : Vpaid.Obj) (hasStyleSheet : bool),
       let ad' := state_of (Vpaid.startAd t0 hasStyleSheet ad) in
       getAdRemainingTime now ad' =
         (Normal (number (duration (attributes_ ad))
                    - (number now - number t0) / 1000)%float, ad', [])) /\
    (forall ad : Part000.Obj,
       let ad' := state_of (Part000.startAd t0 ad) in
       getAdRemainingTime now ad' =
         (Normal (number (duration (attributes_ ad))
                    - (number now - number t0) / 1000)%float, ad', [])) /\
    result_of (getAdRemainingTime 1700000000274
                 (state_of (Vpaid.startAd 1700000000000 false Vpaid.VpaidNonLinear)))
      = Normal 0x1.373b645a1cacp+3%float /\
    result_of (getAdRemainingTime 1700000000274
                 (state_of (Part000.startAd 1700000000000 Part000.VpaidNonLinear)))
      = Normal 0x1.373b645a1cacp+3%float /\
    0x1.373b645a1cacp+3%float <> (number 9726 / 1000)%float.
Proof.
  intros t0 now. split; [| split; [| split; [| split]]].
  - intros ad ss ad'.
    destruct (Vpaid_startAd_clock ad t0 ss) as [Ht Ha]. fold ad' in Ht, Ha.
    unfold getAdRemainingTime, gets. now rewrite Ht, Ha.
  - intros ad ad'.
    destruct (Part000_startAd_clock ad t0) as [Ht Ha]. fold ad' in Ht, Ha.
    unfold getAdRemainingTime, gets. now rewrite Ht, Ha.
  - vm_compute. reflexivity.
  - vm_compute. reflexivity.
  - intros H. apply (f_equal (fun x => PrimFloat.eqb x (number 9726 / 1000))) in H.
    vm_compute in H. discriminate H.
Qed.

(** ** Invariants through the loops *)

Ltac inv_side :=
  solve [ assumption | reflexivity | exact Logic.I | discriminate
        | cbn in *; first [assumption | reflexivity | tauto | congruence] ].

Ltac inv_step :=
  first
    [ apply keeps_ret
    | apply keeps_throw
    | apply keeps_gets
    | apply keeps_bind; [| intros ?]
    | apply keeps_modify; intros ? ?; inv_side
    | apply keeps_perform; inv_side
    | match goal with
      | |- keeps _ _ (match ?x with _ => _ end) => destruct x
      | |- keeps _ _ (if ?x then _ else _) => destruct x
      end ].

Section KeepsLoops.
Context {X : Type} (I : Ad X -> Prop) (T : Effect -> Prop).

Lemma keeps_removeChildren (children : list Node) :
  (forall s ad, I ad -> I (with_slot s ad)) ->
  (forall n, T (SlotRemoveChild n)) ->
  keeps I T (removeChildren children).
Proof.
  intros Hslot Hrem. induction children as [|c rest IH]; cbn [removeChildren].
  - apply keeps_ret.
  - apply keeps_bind; [apply keeps_perform, Hrem | intros _].
    apply keeps_bind; [apply keeps_modify; intros ad; apply Hslot | intros _].
    exact IH.
Qed.

Lemma keeps_slot_clear :
  (forall s ad, I ad -> I (with_slot s ad)) ->
  (forall n, T (SlotRemoveChild n)) ->
  keeps I T slot_clear.
Proof.
  intros Hslot Hrem. unfold slot_clear.
  apply keeps_bind; [unfold the_slot; repeat inv_step | intros s].
  now apply keeps_removeChildren.
Qed.

End KeepsLoops.

Lemma Vpaid_keeps_chooseSource (I : Vpaid.Obj -> Prop) (T : Effect -> Prop)
    (videos : list Video) :
  (forall v, T (VideoSetAttribute "src" v)) ->
  keeps I T (Vpaid.chooseSource videos).
Proof.
  intros Hsrc. induction videos as [|v later IH]; cbn [Vpaid.chooseSource].
  - apply keeps_ret.
  - apply keeps_bind; [unfold the_videoSlot; repeat inv_step | intros vs].
    destruct (negb _); [| exact IH].
    apply keeps_bind; [apply keeps_perform, Hsrc | intros _; apply keeps_ret].
Qed.

Lemma Part000_keeps_playSources (I : Part000.Obj -> Prop) (T : Effect -> Prop)
    (videos : list Video) :
  (forall v, T (VideoSetAttribute "src" v)) ->
  T (VideoAddEventListener "ended") ->
  T VideoPlay ->
  keeps I T (Part000.playSources videos).
Proof.
  intros Hsrc Hlisten Hplay.
  induction videos as [|v later IH]; cbn [Part000.playSources].
  - apply keeps_ret.
  - apply keeps_bind; [unfold the_videoSlot; repeat inv_step | intros vs].
    apply keeps_bind; [| intros _; exact IH].
    destruct (negb _); [| apply keeps_ret].
    apply keeps_bind; [apply keeps_perform, Hsrc | intros _].
    apply keeps_bind; [unfold the_videoSlot; repeat inv_step | intros _].
    apply keeps_bind; [now apply keeps_perform | intros _].
    apply keeps_bind; [unfold the_videoSlot; repeat inv_step | intros _].
    now apply keeps_perform.
Qed.

(** ** The slot: [startAd] and the second overlay click *)

Lemma no_removal_removed (t : list Effect) :
  Forall no_removal t -> removed t = [].
Proof.
  induction 1 as [|e t He Ht IH]; [reflexivity |].
  unfold removed in *. cbn. now destruct e.
Qed.

Lemma removed_app (t t' : list Effect) :
  removed (t ++ t') = (removed t ++ removed t')%list.
Proof. apply omap_app. Qed.

Lemma removed_removals (children : list Node) :
  removed (map SlotRemoveChild children) = children.
Proof. induction children as [|c rest IH]; cbn; [reflexivity |]. now f_equal. Qed.

Lemma removed_callEvent_ {X} (ad : Ad X) (eventType : string) :
  removed (trace_of (callEvent_ eventType ad)) = [].
Proof.
  unfold callEvent_. unfold_js.
  now destruct (eventsCallbacks_ ad !! eventType) as [[f|]|].
Qed.

(** After the slot is cleared, the rest of the click handlers leaves it
    alone. *)
Lemma Vpaid_after_clear_keeps :
  keeps (slot_is []) no_removal
    (bind (gets (fun ad : Vpaid.Obj => Vpaid.videos_ (rest_ ad))) (fun videos =>
     bind (Vpaid.chooseSource videos) (fun foundSource =>
     bind (if foundSource : bool then ret tt else callEvent_ "AdError") (fun _ =>
     bind the_videoSlot (fun _ =>
     bind (perform (VideoAddEventListener "ended")) (fun _ =>
     perform VideoPlay)))))).
Proof.
  apply keeps_bind; [apply keeps_gets | intros videos].
  apply keeps_bind; [now apply Vpaid_keeps_chooseSource | intros found].
  unfold callEvent_, the_videoSlot. repeat inv_step.
Qed.

Lemma Part000_after_clear_keeps :
  keeps (slot_is []) no_removal
    (bind Part000.parameters_videos (fun videos =>
     bind (Part000.playSources videos) (fun _ => callEvent_ "AdError"))).
Proof.
  apply keeps_bind; [unfold Part000.parameters_videos; repeat inv_step | intros videos].
  apply keeps_bind; [now apply Part000_keeps_playSources | intros _].
  unfold callEvent_. repeat inv_step.
Qed.

Lemma slot_clear_then {X A} (k : M (Ad X) A) (ad : Ad X) (children : list Node) :
  slot_ ad = Some (mkSlot children) ->
  keeps (slot_is []) no_removal k ->
  let r := bind slot_clear (fun _ => k) ad in
  removed (trace_of r) = children /\ slot_ (state_of r) = Some (mkSlot []).
Proof.
  intros Hs Hk r. subst r.
  rewrite trace_of_bind, state_of_bind, (slot_clear_run ad _ Hs).
  cbn [trace_of result_of state_of fst snd childNodes].
  set (ad2 := match children with [] => ad | _ => _ end).
  assert (H2 : slot_is [] ad2).
  { subst ad2. destruct children; [exact Hs | reflexivity]. }
  destruct (Hk ad2 H2) as [Hst Htr].
  rewrite removed_app, removed_removals, (no_removal_removed _ Htr), app_nil_r.
  split; [reflexivity | exact Hst].
Qed.

(** X9: on an object that has a slot and whose [AdLinearChange] property is
    not [null], the second overlay click removes every child of the slot,
    each once and in order, and leaves the slot empty, whatever happens
    afterwards with the videos.  This holds for both files. *)
Theorem second_click_clears_slot :
  forall (children : list Node),
    (forall ad : Vpaid.Obj,
       slot_ ad = Some (mkSlot children) ->
       eventsCallbacks_ ad !! "AdLinearChange" <> Some None ->
       let r := Vpaid.overlay2OnClick_ ad in
       removed (trace_of r) = children /\ slot_ (state_of r) = Some (mkSlot [])) /\
    (forall ad : Part000.Obj,
       slot_ ad = Some (mkSlot children) ->
       eventsCallbacks_ ad !! "AdLinearChange" <> Some None ->
       let r := Part000.linearButtonClick ad in
       removed (trace_of r) = children /\ slot_ (state_of r) = Some (mkSlot [])).
Proof.
  intros children. split; intros ad Hs Hcb r; subst r.
  - unfold Vpaid.overlay2OnClick_.
    set (ad1 := with_attributes (set_linear true) ad).
    rewrite trace_of_bind, state_of_bind.
    cbn [modify trace_of result_of state_of fst snd app]. fold ad1.
    rewrite trace_of_bind, state_of_bind, callEvent__result, callEvent__state
      by exact Hcb.
    rewrite removed_app, removed_callEvent_. cbn [app].
    apply (slot_clear_then _ ad1 children Hs Vpaid_after_clear_keeps).
  - unfold Part000.linearButtonClick.
    set (ad1 := with_attributes (set_linear true) ad).
    rewrite trace_of_bind, state_of_bind.
    cbn [modify trace_of result_of state_of fst snd app]. fold ad1.
    rewrite trace_of_bind, state_of_bind, callEvent__result, callEvent__state
      by exact Hcb.
    rewrite removed_app, removed_callEvent_. cbn [app].
    apply (slot_clear_then _ ad1 children Hs Part000_after_clear_keeps).
Qed.


Lemma second_click_clears_slot_witness :
  let ad := state_of (Vpaid.startAd 0 false
              (state_of (Vpaid.initAd (VNum 640) (VNum 360) (VStr "normal") (VNum 256)
                           (creative_with []) mp4_page Vpaid.VpaidNonLinear))) in
  let r := Vpaid.overlay2OnClick_ ad in
  removed (trace_of r) = [Img "" ["animatedImg"]; Img "" []] /\
  slot_ (state_of r) = Some (mkSlot []).
Proof.
  apply (proj1 (second_click_clears_slot [Img "" ["animatedImg"]; Img "" []]));
    [reflexivity | vm_compute; discriminate].
Defined.

(** ** Attributes through a session *)

Ltac unfold_methods :=
  unfold Vpaid.discard, Part000.discard, handshakeVersion, Vpaid.initAd,
    Part000.initAd, Vpaid.startAd, Part000.startAd, Part000.parameters_overlays,
    Part000.parameters_videos, stopAd, setAdVolume, getAdVolume, Vpaid.resizeAd,
    Part000.resizeAd, Vpaid.updateVideoPlayerSize_, pauseAd, Vpaid.resumeAd,
    Part000.resumeAd, Vpaid.expandAd, Part000.expandAd, getAdExpanded,
    getAdSkippableState, collapseAd, skipAd, Vpaid.subscribe, Part000.subscribe,
    bind_and_store, unsubscribe, getAdWidth, getAdHeight, getAdRemainingTime,
    getAdDuration, getAdCompanions, getAdIcons, getAdLinear,
    Vpaid.overlayOnClick_, Vpaid.overlay2OnClick_, Part000.nonLinearAdClick,
    Part000.linearButtonClick, timeout_expired, slot_appendChild, the_slot,
    the_videoSlot, callEvent_, log.

Ltac inv_auto :=
  repeat first
    [ apply keeps_slot_clear; [intros ? ? ?; inv_side | intros ?; inv_side]
    | apply Vpaid_keeps_chooseSource; intros ?; inv_side
    | apply Part000_keeps_playSources; [intros ?; inv_side | inv_side | inv_side]
    | inv_step ].

Lemma Vpaid_linear_step (c : Vpaid.Call) (ad : Vpaid.Obj) :
  linear (attributes_ (state_of (Vpaid.perform_call c ad))) = true <->
  linear (attributes_ ad) = true \/ c = Vpaid.Overlay2Clicked.
Proof.
  assert (Hkeep : forall b,
             c <> Vpaid.Overlay2Clicked ->
             keeps (linear_is b) any_effect (Vpaid.perform_call c)).
  { intros b Hc. destruct c; try congruence; cbn [Vpaid.perform_call];
      unfold_methods; inv_auto. }
  destruct c;
    try (split;
         [ intros H; left;
           destruct (linear (attributes_ ad)) eqn:E; [reflexivity |];
           rewrite <- H; symmetry;
           apply (Hkeep false ltac:(discriminate) ad E)
         | intros [H | H]; [| discriminate H];
           apply (Hkeep true ltac:(discriminate) ad H) ]).
  split; [now right | intros _].
  cbn [Vpaid.perform_call]. unfold Vpaid.overlay2OnClick_.
  rewrite state_of_bind. cbn [modify result_of state_of fst snd].
  match goal with
  | |- linear (attributes_ (state_of (?k ?s))) = true =>
      assert (Hk : keeps (linear_is true) any_effect k)
        by (unfold_methods; inv_auto);
      exact (proj1 (Hk s eq_refl))
  end.
Qed.

Lemma Part000_linear_step (c : Part000.Call) (ad : Part000.Obj) :
  linear (attributes_ (state_of (Part000.perform_call c ad))) = true <->
  linear (attributes_ ad) = true \/ c = Part000.LinearButtonClick.
Proof.
  assert (Hkeep : forall b,
             c <> Part000.LinearButtonClick ->
             keeps (linear_is b) any_effect (Part000.perform_call c)).
  { intros b Hc. destruct c; try congruence; cbn [Part000.perform_call];
      unfold_methods; inv_auto. }
  destruct c;
    try (split;
         [ intros H; left;
           destruct (linear (attributes_ ad)) eqn:E; [reflexivity |];
           rewrite <- H; symmetry;
           apply (Hkeep false ltac:(discriminate) ad E)
         | intros [H | H]; [| discriminate H];
           apply (Hkeep true ltac:(discriminate) ad H) ]).
  split; [now right | intros _].
  cbn [Part000.perform_call]. unfold Part000.linearButtonClick.
  rewrite state_of_bind. cbn [modify result_of state_of fst snd].
  match goal with
  | |- linear (attributes_ (state_of (?k ?s))) = true =>
      assert (Hk : keeps (linear_is true) any_effect k)
        by (unfold_methods; inv_auto);
      exact (proj1 (Hk s eq_refl))
  end.
Qed.

Lemma linear_session {X C : Type} (perform_call : C -> M (Ad X) unit) (click : C) :
  (forall c ad,
     linear (attributes_ (state_of (perform_call c ad))) = true <->
     linear (attributes_ ad) = true \/ c = click) ->
  forall calls ad,
    linear (attributes_ (run_calls perform_call calls ad).1) = true <->
    linear (attributes_ ad) = true \/ In click calls.
Proof.
  intros Hstep calls. induction calls as [|c calls IH]; intros ad; cbn.
  - tauto.
  - rewrite IH, Hstep. tauto.
Qed.

(** X11: in every session from a new object, [getAdLinear] returns true if
    and only if the second overlay (the linear button) has been clicked
    during the session: the click handler sets the flag before anything in
    it can fail, and no call ever clears it.  This holds for both files. *)
Theorem getAdLinear_iff_second_click :
  (forall calls : list Vpaid.Call,
     let ad := (Vpaid.session calls Vpaid.VpaidNonLinear).1 in
     getAdLinear ad = (Normal true, ad, []) <-> In Vpaid.Overlay2Clicked calls) /\
  (forall calls : list Part000.Call,
     let ad := (Part000.session calls Part000.VpaidNonLinear).1 in
     getAdLinear ad = (Normal true, ad, []) <-> In Part000.LinearButtonClick calls).
Proof.
  split; intros calls ad; subst ad; unfold getAdLinear, gets.
  - pose proof (linear_session Vpaid.perform_call _ Vpaid_linear_step calls
                  Vpaid.VpaidNonLinear) as H.
    fold (Vpaid.session calls Vpaid.VpaidNonLinear) in H. cbn in H.
    split.
    + intros E. assert (Hl : linear (attributes_ (Vpaid.session calls Vpaid.VpaidNonLinear).1) = true)
        by congruence.
      apply H in Hl as [Hl | Hl]; [discriminate Hl | exact Hl].
    + intros Hin. now rewrite (proj2 H (or_intror Hin)).
  - pose proof (linear_session Part000.perform_call _ Part000_linear_step calls
                  Part000.VpaidNonLinear) as H.
    fold (Part000.session calls Part000.VpaidNonLinear) in H. cbn in H.
    split.
    + intros E. assert (Hl : linear (attributes_ (Part000.session calls Part000.VpaidNonLinear).1) = true)
        by congruence.
      apply H in Hl as [Hl | Hl]; [discriminate Hl | exact Hl].
    + intros Hin. now rewrite (proj2 H (or_intror Hin)).
Qed.

(** ** [initAd] *)


(** X13: in src/unnamed/part_000, the click on the non-linear ad never
    changes the object and emits nothing through [callEvent_].  Right after
    [subscribe(f, 'AdClickThru', aContext)] it calls [f] bound to [aContext]
    once, with the arguments [''], ['0'] and [true]; right after
    [unsubscribe('AdClickThru')] it throws a TypeError; with no registration
    it does nothing. *)
Theorem nonLinearAdClick_calls_AdClickThru :
  forall (ad : Part000.Obj),
    state_of (Part000.nonLinearAdClick ad) = ad /\
    emitted (trace_of (Part000.nonLinearAdClick ad)) = [] /\
    (forall (f : nat) (aContext : value),
       let ad' := state_of (Part000.subscribe (VFun f) "AdClickThru" aContext ad) in
       Part000.nonLinearAdClick ad' =
         (Normal tt, ad',
          [CallBound (mkBound f aContext) [VStr ""; VStr "0"; VBool true]])) /\
    (let ad' := state_of (unsubscribe "AdClickThru" ad) in
     Part000.nonLinearAdClick ad' = (Throws TypeError, ad', [])) /\
    (eventsCallbacks_ ad !! "AdClickThru" = None ->
     Part000.nonLinearAdClick ad = (Normal tt, ad, [])).
Proof.
  intros ad. unfold Part000.nonLinearAdClick. unfold_js. repeat split.
  - now destruct (eventsCallbacks_ ad !! "AdClickThru") as [[f|]|].
  - now destruct (eventsCallbacks_ ad !! "AdClickThru") as [[f|]|].
  - intros f aContext. cbn. now rewrite lookup_insert_eq.
  - cbn. now rewrite lookup_insert_eq.
  - now intros ->.
Qed.

(** X14: [pauseAd] and [resumeAd] never change the object.  With a video
    element they pause it, respectively play it, and emit [AdPaused],
    respectively [AdResumed] in src/vpaid/VpaidNonLinear.js and [AdPlaying]
    in src/unnamed/part_000; without one they throw a TypeError after
    their console line and emit nothing. *)
Theorem pauseAd_resumeAd_need_video :
  (forall (X : Type) (ad : Ad X),
     let r := pauseAd ad in
     state_of r = ad /\
     match videoSlot_ ad with
     | Some _ =>
         trace_of r = (ConsoleLog [VStr "pauseAd"] :: VideoPause
                         :: trace_of (callEvent_ "AdPaused" ad))%list /\
         emitted (trace_of r) = ["AdPaused"]
     | None => r = (Throws TypeError, ad, [ConsoleLog [VStr "pauseAd"]])
     end) /\
  (forall ad : Vpaid.Obj,
     let r := Vpaid.resumeAd ad in
     state_of r = ad /\
     match videoSlot_ ad with
     | Some _ =>
         trace_of r = (ConsoleLog [VStr "resumeAd"] :: VideoPlay
                         :: trace_of (callEvent_ "AdResumed" ad))%list /\
         emitted (trace_of r) = ["AdResumed"]
     | None => r = (Throws TypeError, ad, [ConsoleLog [VStr "resumeAd"]])
     end) /\
  (forall ad : Part000.Obj,
     let r := Part000.resumeAd ad in
     state_of r = ad /\
     match videoSlot_ ad with
     | Some _ =>
         trace_of r = (ConsoleLog [VStr "resumeAd"] :: VideoPlay
                         :: trace_of (callEvent_ "AdPlaying" ad))%list /\
         emitted (trace_of r) = ["AdPlaying"]
     | None => r = (Throws TypeError, ad, [ConsoleLog [VStr "resumeAd"]])
     end).
Proof.
  repeat split; intros;
    match goal with
    | ad : Ad _ |- _ => destruct ad as [sl [vs|] cbs attrs st rest]
    end;
    unfold pauseAd, Vpaid.resumeAd, Part000.resumeAd, the_videoSlot, callEvent_;
    unfold_js; try reflexivity; case_lookups; now repeat split.
Qed.

(** ** Registrations through a session *)

Lemma Vpaid_registration_frame (c : Vpaid.Call) (eventName : string)
    (v : option (option BoundFn)) :
  Vpaid_registers c <> Some eventName ->
  keeps (registered_is eventName v) any_effect (Vpaid.perform_call c).
Proof.
  intros Hc. destruct c; cbn [Vpaid.perform_call]; unfold_methods; inv_auto;
    cbn in Hc; apply keeps_modify; intros ad Had; unfold registered_is in *; cbn;
    rewrite lookup_insert_ne by congruence; exact Had.
Qed.

Lemma Part000_registration_frame (c : Part000.Call) (eventName : string)
    (v : option (option BoundFn)) :
  Part000_registers c <> Some eventName ->
  keeps (registered_is eventName v) any_effect (Part000.perform_call c).
Proof.
  intros Hc. destruct c; cbn [Part000.perform_call]; unfold_methods; inv_auto;
    cbn in Hc; apply keeps_modify; intros ad Had; unfold registered_is in *; cbn;
    rewrite lookup_insert_ne by congruence; exact Had.
Qed.

Lemma registration_session {X C : Type} (perform_call : C -> M (Ad X) unit)
    (registers : C -> option string) (eventName : string) :
  (forall c v, registers c <> Some eventName ->
     keeps (registered_is eventName v) any_effect (perform_call c)) ->
  forall calls ad,
    Forall (fun c => registers c <> Some eventName) calls ->
    eventsCallbacks_ (run_calls perform_call calls ad).1 !! eventName =
      eventsCallbacks_ ad !! eventName.
Proof.
  intros Hframe calls. induction calls as [|c calls IH]; intros ad Hall; cbn.
  - reflexivity.
  - inversion Hall as [|c' calls' Hc Hcalls]; subst.
    rewrite IH by exact Hcalls.
    exact (proj1 (Hframe c _ Hc ad eq_refl)).
Qed.

(** X15: only [subscribe] and [unsubscribe] touch the registrations, and
    only the one of the event they name.  Hence, for each event name the
    code emits, after any session from a new object in which that name was
    neither subscribed nor unsubscribed (and nothing was registered under
    ['__proto__']), emitting it returns normally, calls nothing and leaves
    the object as it is.  This holds for both files. *)
Theorem emission_silent_without_registration :
  forall (eventName : string),
    In eventName event_names ->
    (forall calls : list Vpaid.Call,
       Forall (fun c => Vpaid_registers c <> Some eventName /\
                        Vpaid_registers c <> Some "__proto__") calls ->
       let ad := (Vpaid.session calls Vpaid.VpaidNonLinear).1 in
       callEvent_ eventName ad = (Normal tt, ad, [Emit eventName])) /\
    (forall calls : list Part000.Call,
       Forall (fun c => Part000_registers c <> Some eventName /\
                        Part000_registers c <> Some "__proto__") calls ->
       let ad := (Part000.session calls Part000.VpaidNonLinear).1 in
       callEvent_ eventName ad = (Normal tt, ad, [Emit eventName])).
Proof.
  intros eventName _. split; intros calls Hall ad; subst ad;
    apply callEvent__absent.
  - unfold Vpaid.session.
    rewrite (registration_session _ Vpaid_registers eventName
               (fun c v => Vpaid_registration_frame c eventName v) calls _).
    + apply lookup_empty.
    + eapply Forall_impl; [exact Hall | now intros c [Hc _]].
  - unfold Part000.session.
    rewrite (registration_session _ Part000_registers eventName
               (fun c v => Part000_registration_frame c eventName v) calls _).
    + apply lookup_empty.
    + eapply Forall_impl; [exact Hall | now intros c [Hc _]].
Qed.

Lemma emission_silent_without_registration_witness :
  let calls :=
    [Vpaid.Subscribe (VFun 1) "AdLoaded" (VObj 0);
     Vpaid.InitAd (VNum 640) (VNum 360) (VStr "normal") (VNum 256)
       (creative_with []) mp4_page;
     Vpaid.Unsubscribe "AdLoaded";
     Vpaid.StartAd 0 false] in
  let ad := (Vpaid.session calls Vpaid.VpaidNonLinear).1 in
  callEvent_ "AdStarted" ad = (Normal tt, ad, [Emit "AdStarted"]).
Proof.
  apply (proj1 (emission_silent_without_registration "AdStarted"
                  ltac:(cbn; tauto))).
  repeat constructor; cbn; discriminate.
Defined.

(** ** Attributes nothing writes *)

Lemma Vpaid_fixed_attributes (c : Vpaid.Call) :
  keeps fixed_attributes any_effect (Vpaid.perform_call c).
Proof. destruct c; cbn [Vpaid.perform_call]; unfold_methods; inv_auto. Qed.

Lemma Part000_fixed_attributes (c : Part000.Call) :
  keeps fixed_attributes any_effect (Part000.perform_call c).
Proof. destruct c; cbn [Part000.perform_call]; unfold_methods; inv_auto. Qed.

Lemma Part000_duration_fixed (c : Part000.Call) (d : Z) :
  keeps (duration_is d) any_effect (Part000.perform_call c).
Proof. destruct c; cbn [Part000.perform_call]; unfold_methods; inv_auto. Qed.

(** X16: through every session from a new object, [getAdCompanions] and
    [getAdIcons] return the empty string, in both files; and in
    src/unnamed/part_000, where no click extends it, [getAdDuration] returns
    10. *)
Theorem companions_icons_duration_fixed :
  (forall calls : list Vpaid.Call,
     let ad := (Vpaid.session calls Vpaid.VpaidNonLinear).1 in
     getAdCompanions ad = (Normal "", ad, []) /\
     getAdIcons ad = (Normal "", ad, [])) /\
  (forall calls : list Part000.Call,
     let ad := (Part000.session calls Part000.VpaidNonLinear).1 in
     getAdCompanions ad = (Normal "", ad, []) /\
     getAdIcons ad = (Normal "", ad, []) /\
     getAdDuration ad = (Normal 10, ad, [])).
Proof.
  split; intros calls ad; subst ad;
    unfold getAdCompanions, getAdIcons, getAdDuration, gets.
  - destruct (keeps_run_calls any_effect fixed_attributes Vpaid.perform_call
                Vpaid_fixed_attributes calls Vpaid.VpaidNonLinear
                (conj eq_refl eq_refl)) as [[Hc Hi] _].
    unfold Vpaid.session. now rewrite Hc, Hi.
  - destruct (keeps_run_calls any_effect fixed_attributes Part000.perform_call
                Part000_fixed_attributes calls Part000.VpaidNonLinear
                (conj eq_refl eq_refl)) as [[Hc Hi] _].
    destruct (keeps_run_calls any_effect (duration_is 10) Part000.perform_call
                (fun c => Part000_duration_fixed c 10) calls
                Part000.VpaidNonLinear eq_refl) as [Hd _].
    unfold Part000.session, duration_is in *. now rewrite Hc, Hi, Hd.
Qed.

(** ** Before [initAd] *)

Lemma keeps_bind_throws {S A B} (I : S -> Prop) (T : Effect -> Prop)
    (m : M S A) (k : A -> M S B) :
  keeps I T m ->
  (forall s, I s -> exists e, result_of (m s) = Throws e) ->
  keeps I T (bind m k).
Proof.
  intros Hm Hthrow s Hs. specialize (Hm s Hs). destruct (Hthrow s Hs) as [e He].
  unfold bind. destruct (m s) as [[[a|e'] s'] t]; cbn in *; [discriminate | exact Hm].
Qed.

Section BeforeInit.
Context {X : Type}.
Local Abbreviation early := (keeps (@not_initialised X) before_init_effect).
Local Abbreviation throws m :=
  (forall ad : Ad X, not_initialised ad -> exists e, result_of (m ad) = Throws e).

Lemma early_the_slot : early the_slot /\ throws the_slot.
Proof.
  split; intros ad Had; pose proof Had as [Hs _]; unfold the_slot; unfold_js;
    rewrite Hs; cbn; [split; [exact Had | constructor] | eauto].
Qed.

Lemma early_the_videoSlot : early the_videoSlot /\ throws the_videoSlot.
Proof.
  split; intros ad Had; pose proof Had as [_ [Hv _]]; unfold the_videoSlot;
    unfold_js; rewrite Hv; cbn; [split; [exact Had | constructor] | eauto].
Qed.

Lemma early_slot_appendChild (n : Node) :
  early (slot_appendChild n) /\ throws (slot_appendChild n).
Proof.
  split.
  - apply keeps_bind_throws; apply early_the_slot.
  - intros ad Had. destruct (proj2 early_the_slot ad Had) as [e He].
    exists e. unfold slot_appendChild. now rewrite result_of_bind, He.
Qed.

Lemma early_slot_clear : early slot_clear /\ throws slot_clear.
Proof.
  split.
  - apply keeps_bind_throws; apply early_the_slot.
  - intros ad Had. destruct (proj2 early_the_slot ad Had) as [e He].
    exists e. unfold slot_clear. now rewrite result_of_bind, He.
Qed.

Lemma early_skipAd : early skipAd.
Proof.
  intros ad Had. pose proof Had as [_ [_ Hk]]. unfold skipAd. unfold_js.
  rewrite Hk. cbn. split; [exact Had | now repeat constructor].
Qed.

End BeforeInit.

Lemma Vpaid_early_updateVideoPlayerSize_ :
  keeps not_initialised before_init_effect Vpaid.updateVideoPlayerSize_ /\
  (forall ad : Vpaid.Obj, not_initialised ad ->
     exists e, result_of (Vpaid.updateVideoPlayerSize_ ad) = Throws e).
Proof.
  split.
  - apply keeps_bind_throws; apply early_the_videoSlot.
  - intros ad Had. destruct (proj2 early_the_videoSlot ad Had) as [e He].
    exists e. unfold Vpaid.updateVideoPlayerSize_. now rewrite result_of_bind, He.
Qed.

Ltac early_side :=
  solve [ assumption | exact Logic.I | cbn; tauto ].

Ltac early_step :=
  first
    [ apply early_skipAd
    | match goal with
      | |- keeps _ _ (bind (slot_appendChild _) _) =>
          apply keeps_bind_throws; apply early_slot_appendChild
      | |- keeps _ _ (bind slot_clear _) =>
          apply keeps_bind_throws; apply early_slot_clear
      | |- keeps _ _ (bind the_videoSlot _) =>
          apply keeps_bind_throws; apply early_the_videoSlot
      | |- keeps _ _ (bind Vpaid.updateVideoPlayerSize_ _) =>
          apply keeps_bind_throws; apply Vpaid_early_updateVideoPlayerSize_
      | |- keeps _ _ (bind (throw _) _) =>
          apply keeps_bind_throws; [apply keeps_throw | intros ? _; now eexists]
      end
    | apply keeps_ret
    | apply keeps_throw
    | apply keeps_gets
    | apply keeps_bind; [| intros ?]
    | apply keeps_modify; intros ? ?; early_side
    | apply keeps_perform; early_side
    | match goal with
      | |- keeps _ _ (match ?x with _ => _ end) => destruct x
      | |- keeps _ _ (if ?x then _ else _) => destruct x
      end ].

Ltac unfold_calls :=
  unfold Vpaid.discard, Part000.discard, handshakeVersion, Vpaid.startAd,
    Part000.startAd, Part000.parameters_overlays, Part000.parameters_videos,
    stopAd, setAdVolume, getAdVolume, Vpaid.resizeAd, Part000.resizeAd,
    pauseAd, Vpaid.resumeAd, Part000.resumeAd,
    Vpaid.expandAd, Part000.expandAd, getAdExpanded, getAdSkippableState,
    collapseAd, Vpaid.subscribe, Part000.subscribe, bind_and_store, unsubscribe,
    getAdWidth, getAdHeight, getAdRemainingTime, getAdDuration, getAdCompanions,
    getAdIcons, getAdLinear, Vpaid.overlayOnClick_, Vpaid.overlay2OnClick_,
    Part000.nonLinearAdClick, Part000.linearButtonClick, timeout_expired,
    callEvent_, log.

Lemma Vpaid_early_call (c : Vpaid.Call) :
  is_initAd_Vpaid c = false ->
  keeps not_initialised before_init_effect (Vpaid.perform_call c).
Proof.
  intros Hc. destruct c; try discriminate Hc; cbn [Vpaid.perform_call];
    unfold_calls; repeat early_step.
Qed.

Lemma Part000_early_call (c : Part000.Call) :
  is_initAd_Part000 c = false ->
  keeps not_initialised before_init_effect (Part000.perform_call c).
Proof.
  intros Hc. destruct c; try discriminate Hc; cbn [Part000.perform_call];
    unfold_calls; repeat early_step.
Qed.

(** X17: in any session from a new object that does not call [initAd], the
    ad never touches the slot or the video element, and of its events it
    emits none but [AdVolumeChange], [AdExpanded], [AdStopped],
    [AdClickThru], [AdRemainingTimeChange] and [AdLinearChange]: no
    [AdLoaded], [AdStarted], [AdPaused], [AdResumed], [AdPlaying],
    [AdSizeChange] or [AdError], since the methods that would emit them
    throw before they get there.  This holds for both files. *)
Theorem nothing_starts_before_initAd :
  (forall calls : list Vpaid.Call,
     Forall (fun c => is_initAd_Vpaid c = false) calls ->
     let r := Vpaid.session calls Vpaid.VpaidNonLinear in
     slot_ r.1 = None /\ videoSlot_ r.1 = None /\
     Forall before_init_effect r.2) /\
  (forall calls : list Part000.Call,
     Forall (fun c => is_initAd_Part000 c = false) calls ->
     let r := Part000.session calls Part000.VpaidNonLinear in
     slot_ r.1 = None /\ videoSlot_ r.1 = None /\
     Forall before_init_effect r.2).
Proof.
  split; intros calls Hall r; subst r.
  - unfold Vpaid.session.
    assert (H : forall ad, not_initialised ad ->
              not_initialised (run_calls Vpaid.perform_call calls ad).1 /\
              Forall before_init_effect (run_calls Vpaid.perform_call calls ad).2).
    { induction Hall as [|c calls Hc Hcalls IH]; intros ad Had; cbn.
      - split; [exact Had | constructor].
      - destruct (Vpaid_early_call c Hc ad Had) as [Had' Ht].
        destruct (IH _ Had') as [Hfin Ht']. split; [exact Hfin | now apply Forall_app]. }
    destruct (H Vpaid.VpaidNonLinear (conj eq_refl (conj eq_refl eq_refl)))
      as [[Hs [Hv _]] Ht].
    now repeat split.
  - unfold Part000.session.
    assert (H : forall ad, not_initialised ad ->
              not_initialised (run_calls Part000.perform_call calls ad).1 /\
              Forall before_init_effect (run_calls Part000.perform_call calls ad).2).
    { induction Hall as [|c calls Hc Hcalls IH]; intros ad Had; cbn.
      - split; [exact Had | constructor].
      - destruct (Part000_early_call c Hc ad Had) as [Had' Ht].
        destruct (IH _ Had') as [Hfin Ht']. split; [exact Hfin | now apply Forall_app]. }
    destruct (H Part000.VpaidNonLinear (conj eq_refl (conj eq_refl eq_refl)))
      as [[Hs [Hv _]] Ht].
    now repeat split.
Qed.

Lemma nothing_starts_before_initAd_witness :
  let calls :=
    [Vpaid.StartAd 0 false; Vpaid.PauseAd; Vpaid.ResumeAd;
     Vpaid.ResizeAd (VNum 10) (VNum 10) (VStr "normal");
     Vpaid.OverlayClicked; Vpaid.Overlay2Clicked; Vpaid.SetAdVolume (VNum 7);
     Vpaid.StopAd; Vpaid.TimeoutExpired] in
  let r := Vpaid.session calls Vpaid.VpaidNonLinear in
  slot_ r.1 = None /\ videoSlot_ r.1 = None /\ Forall before_init_effect r.2.
Proof.
  apply (proj1 nothing_starts_before_initAd). repeat constructor.
Defined.

Lemma callEvent__throws_TypeError {X} (ad : Ad X) (eventType : string) (e : Exn) :
  result_of (callEvent_ eventType ad) = Throws e -> e = TypeError.
Proof.
  unfold callEvent_. unfold_js.
  destruct (eventsCallbacks_ ad !! eventType) as [[f|]|]; cbn; congruence.
Qed.

(** ** Parameters that are [null] in src/unnamed/part_000 *)

(** X18: in src/unnamed/part_000, once the parameters are [null] (as after
    [initAd] with the ad parameters text [null]), [startAd] and the click on
    the linear button always throw a TypeError: [startAd] emits nothing and
    appends nothing to the slot, and the click sets no source and emits no
    [AdError]. *)
Theorem Part000_null_parameters_block_the_ad :
  forall (ad : Part000.Obj) (t0 : Z),
    Part000.parameters_ (rest_ ad) = ParsedNull ->
    (result_of (Part000.startAd t0 ad) = Throws TypeError /\
     emitted (trace_of (Part000.startAd t0 ad)) = [] /\
     slot_ (state_of (Part000.startAd t0 ad)) = slot_ ad) /\
    (result_of (Part000.linearButtonClick ad) = Throws TypeError /\
     ~ In "AdError" (emitted (trace_of (Part000.linearButtonClick ad))) /\
     sources_set (trace_of (Part000.linearButtonClick ad)) = []).
Proof.
  intros ad t0 Hpar. split.
  { destruct ad as [sl vs cbs attrs st [q i pars]]. cbn in Hpar. subst pars.
    now repeat split. }
  unfold Part000.linearButtonClick.
  set (ad1 := with_attributes (set_linear true) ad).
  rewrite result_of_bind, trace_of_bind.
  cbn [modify trace_of result_of state_of fst snd app]. fold ad1.
  rewrite result_of_bind, trace_of_bind, callEvent__state.
  rewrite emitted_app, sources_set_app, callEvent__emitted, callEvent__sources_set.
  destruct (result_of (callEvent_ "AdLinearChange" ad1)) as [[]|e] eqn:Hres.
  2:{ apply callEvent__throws_TypeError in Hres. subst e.
      repeat split. cbn. intros [H|[]]. discriminate H. }
  rewrite result_of_bind, trace_of_bind.
  destruct (slot_ ad1) as [s|] eqn:Hs.
  - rewrite (slot_clear_run ad1 s Hs).
    cbn [trace_of result_of state_of fst snd].
    rewrite emitted_app, sources_set_app, emitted_removals, sources_set_removals.
    assert (Hv : forall ad2 : Part000.Obj,
               Part000.parameters_ (rest_ ad2) = ParsedNull ->
               Part000.parameters_videos ad2 = (Throws TypeError, ad2, [])).
    { intros ad2 H2. unfold Part000.parameters_videos. unfold_js. now rewrite H2. }
    rewrite result_of_bind, trace_of_bind, Hv by now destruct (childNodes s).
    repeat split. cbn. intros [H|[]]. discriminate H.
  - rewrite (slot_clear_null ad1 Hs). repeat split.
    cbn. intros [H|[]]. discriminate H.
Qed.

Lemma Part000_null_parameters_block_the_ad_witness :
  let ad := state_of (Part000.initAd (VNum 640) (VNum 360) (VStr "normal") (VNum 256)
                        (AdParameters (WellFormed ParsedNull)) mp4_page
                        Part000.VpaidNonLinear) in
  (result_of (Part000.startAd 0 ad) = Throws TypeError /\
   emitted (trace_of (Part000.startAd 0 ad)) = [] /\
   slot_ (state_of (Part000.startAd 0 ad)) = slot_ ad) /\
  (result_of (Part000.linearButtonClick ad) = Throws TypeError /\
   ~ In "AdError" (emitted (trace_of (Part000.linearButtonClick ad))) /\
   sources_set (trace_of (Part000.linearButtonClick ad)) = []).
Proof.
  apply (Part000_null_parameters_block_the_ad _ 0). reflexivity.
Defined.


Lemma setAdVolume_stores {X} (ad : Ad X) (val : value) :
  volume (attributes_ (state_of (setAdVolume val ad))) = val.
Proof.
  unfold setAdVolume, callEvent_. unfold_js. cbn.
  now destruct (eventsCallbacks_ ad !! "AdVolumeChange") as [[f|]|].
Qed.

(** ** Duration and volume through a session *)

Lemma Vpaid_duration_grows_call (c : Vpaid.Call) (d : Z) :
  keeps (duration_at_least d) any_effect (Vpaid.perform_call c).
Proof.
  destruct c; cbn [Vpaid.perform_call]; unfold_methods; inv_auto.
  apply keeps_modify. intros ad Had. unfold duration_at_least in *. cbn. lia.
Qed.

(** X20: in src/vpaid/VpaidNonLinear.js no call ever shortens the duration:
    after any session, from any object, [getAdDuration] returns at least
    what it returned before; from a new object, at least 10. *)
Theorem Vpaid_duration_never_shrinks :
  forall (calls : list Vpaid.Call) (ad : Vpaid.Obj),
    duration (attributes_ ad) <= duration (attributes_ (Vpaid.session calls ad).1) /\
    10 <= duration (attributes_ (Vpaid.session calls Vpaid.VpaidNonLinear).1).
Proof.
  intros calls ad. split.
  - apply (keeps_run_calls any_effect (duration_at_least (duration (attributes_ ad)))
             Vpaid.perform_call (fun c => Vpaid_duration_grows_call c _) calls ad).
    unfold duration_at_least. lia.
  - apply (keeps_run_calls any_effect (duration_at_least 10)
             Vpaid.perform_call (fun c => Vpaid_duration_grows_call c _) calls
             Vpaid.VpaidNonLinear).
    unfold duration_at_least. cbn. lia.
Qed.

Lemma Vpaid_volume_frame (c : Vpaid.Call) (v : value) :
  is_setAdVolume_Vpaid c = false ->
  keeps (volume_is v) any_effect (Vpaid.perform_call c).
Proof.
  intros Hc. destruct c; try discriminate Hc; cbn [Vpaid.perform_call];
    unfold_methods; inv_auto.
Qed.

Lemma Part000_volume_frame (c : Part000.Call) (v : value) :
  is_setAdVolume_Part000 c = false ->
  keeps (volume_is v) any_effect (Part000.perform_call c).
Proof.
  intros Hc. destruct c; try discriminate Hc; cbn [Part000.perform_call];
    unfold_methods; inv_auto.
Qed.

Lemma volume_session {X C : Type} (perform_call : C -> M (Ad X) unit)
    (is_set : C -> bool) (v : value) :
  (forall c, is_set c = false -> keeps (volume_is v) any_effect (perform_call c)) ->
  forall calls ad,
    Forall (fun c => is_set c = false) calls ->
    volume (attributes_ ad) = v ->
    volume (attributes_ (run_calls perform_call calls ad).1) = v.
Proof.
  intros Hframe calls. induction calls as [|c calls IH]; intros ad Hall Hv; cbn.
  - exact Hv.
  - inversion Hall as [|c' calls' Hc Hcalls]; subst.
    apply IH; [exact Hcalls |]. exact (proj1 (Hframe c Hc ad eq_refl)).
Qed.

(** X21: [getAdVolume] returns the value of the last [setAdVolume]: after
    [setAdVolume(val)] (whether it returned or threw) and any further calls
    that are not [setAdVolume], it returns [val].  This holds for both
    files. *)
Theorem getAdVolume_returns_last_set :
  forall (val : value),
    (forall (calls : list Vpaid.Call) (ad : Vpaid.Obj),
       Forall (fun c => is_setAdVolume_Vpaid c = false) calls ->
       let ad' := (Vpaid.session (Vpaid.SetAdVolume val :: calls) ad).1 in
       getAdVolume ad' = (Normal val, ad', [ConsoleLog [VStr "getAdVolume"]])) /\
    (forall (calls : list Part000.Call) (ad : Part000.Obj),
       Forall (fun c => is_setAdVolume_Part000 c = false) calls ->
       let ad' := (Part000.session (Part000.SetAdVolume val :: calls) ad).1 in
       getAdVolume ad' = (Normal val, ad', [ConsoleLog [VStr "getAdVolume"]])).
Proof.
  intros val. split; intros calls ad Hall ad'; subst ad';
    unfold getAdVolume; unfold_js.
  - unfold Vpaid.session. cbn [run_calls Vpaid.perform_call fst].
    rewrite (volume_session Vpaid.perform_call is_setAdVolume_Vpaid val
               (fun c => Vpaid_volume_frame c val) calls _ Hall); [reflexivity |].
    apply (setAdVolume_stores ad val).
  - unfold Part000.session. cbn [run_calls Part000.perform_call fst].
    rewrite (volume_session Part000.perform_call is_setAdVolume_Part000 val
               (fun c => Part000_volume_frame c val) calls _ Hall); [reflexivity |].
    apply (setAdVolume_stores ad val).
Qed.

Lemma getAdVolume_returns_last_set_witness :
  let calls := [Vpaid.StartAd 0 false; Vpaid.OverlayClicked; Vpaid.GetAdVolume;
                Vpaid.ResizeAd (VNum 1) (VNum 2) (VStr "normal")] in
  let ad' := (Vpaid.session (Vpaid.SetAdVolume (VNum 80) :: calls)
                Vpaid.VpaidNonLinear).1 in
  getAdVolume ad' = (Normal (VNum 80), ad', [ConsoleLog [VStr "getAdVolume"]]).
Proof.
  apply (proj1 (getAdVolume_returns_last_set (VNum 80))). repeat constructor.
Defined.

